(** * gemini_agario: the simulation core of [gemini_agario.py]

    A shallow embedding of the game objects ([GameObject], [Food],
    [Player]), of the world functions ([spawn_food], the consumption pass
    of [main]) and of the annotation key handler of [main], followed by
    the properties established about them.

    Numbers.  Python mixes [int] and [float] freely in this program; both
    are idealised here as real numbers ([R]): no rounding, no overflow, no
    NaN.  [math.sqrt] keeps its domain error and [/] its division-by-zero
    error, so the methods live in a small state-and-exception monad.

    Randomness.  The global [random] module is an explicit [RandomState]:
    a tape of samples of the unit interval and a cursor.

    Rendering ([draw], [draw_grid], the display calls of [main]) and
    [print] do not touch the simulation state and are left out. *)

From Stdlib Require Import Reals Lra Lia ZArith String Ascii List.
From Stdlib Require Import Permutation Sorted.
Import ListNotations.

Open Scope R_scope.

(** ** Exceptions and the state monad *)

Inductive exn : Type :=
| ValueError
| ZeroDivisionError
| IndexError.

(** A call either returns a value or raises; both leave a state behind,
    since Python keeps the mutations made before an exception. *)
Inductive outcome (S A : Type) : Type :=
| Ok (a : A) (s : S)
| Raised (e : exn) (s : S).

Arguments Ok {S A} a s.
Arguments Raised {S A} e s.

Definition M (S A : Type) : Type := S -> outcome S A.

Definition ret {S A : Type} (a : A) : M S A := fun s => Ok a s.

Definition bind {S A B : Type} (m : M S A) (k : A -> M S B) : M S B :=
  fun s =>
    match m s with
    | Ok a s' => k a s'
    | Raised e s' => Raised e s'
    end.

Definition get {S : Type} : M S S := fun s => Ok s s.

Definition modify {S : Type} (f : S -> S) : M S unit := fun s => Ok tt (f s).

(** A pure partial operation ([math.sqrt], [/], [list.pop]) run inside
    the monad. *)
Definition lift {S A : Type} (r : exn + A) : M S A :=
  fun s =>
    match r with
    | inl e => Raised e s
    | inr a => Ok a s
    end.

(** A computation on a component of the state, run on the whole state. *)
Definition zoom {S T A : Type} (proj : S -> T) (upd : T -> S -> S)
    (m : M T A) : M S A :=
  fun s =>
    match m (proj s) with
    | Ok a t => Ok a (upd t s)
    | Raised e t => Raised e (upd t s)
    end.

Definition final_state {S A : Type} (o : outcome S A) : S :=
  match o with
  | Ok _ s => s
  | Raised _ s => s
  end.

Declare Scope monad_scope.
Delimit Scope monad_scope with monad.
Notation "x <- m ;; k" := (bind m (fun x => k))
  (at level 61, m at next level, right associativity) : monad_scope.
Notation "m ;; k" := (bind m (fun _ => k))
  (at level 61, right associativity) : monad_scope.
Open Scope monad_scope.

(** ** Numeric builtins *)

(** [math.sqrt]: [ValueError] on a negative argument. *)
Definition math_sqrt (v : R) : exn + R :=
  if Rlt_dec v 0 then inl ValueError else inr (sqrt v).

(** [a / b]: [ZeroDivisionError] when [b] is zero. *)
Definition py_div (a b : R) : exn + R :=
  if Req_dec_T b 0 then inl ZeroDivisionError else inr (a / b).

(** [max(a, b)] keeps [a] unless [b > a]; [min(a, b)] keeps [a] unless
    [b < a]. *)
Definition py_max (a b : R) : R := if Rgt_dec b a then b else a.
Definition py_min (a b : R) : R := if Rlt_dec b a then b else a.

(** ** Game settings (lines 46-53) *)

Definition WORLD_WIDTH : R := 2000.
Definition WORLD_HEIGHT : R := 2000.
Definition FOOD_COUNT : nat := 200.
Definition INITIAL_PLAYER_RADIUS : R := 20.
Definition PLAYER_SPEED_FACTOR : R := 0.1.
Definition MIN_PLAYER_RADIUS : R := 5.
Definition FOOD_RADIUS : R := 5.

(** ** Game objects *)

Definition Color : Type := (Z * Z * Z)%type.

Record GameObject : Type := mkGameObject {
  x : R;
  y : R;
  radius : R;
  color : Color
}.

(** [Food] adds no attribute to [GameObject]. *)
Definition Food : Type := GameObject.

Record Player : Type := mkPlayer {
  obj :> GameObject;
  name : string;
  mass : R;
  target_x : R;
  target_y : R;
  gemini_description : string;
  description_timer : R
}.

(** Attribute assignments [self.a = v]. *)
Definition set_obj (o : GameObject) (p : Player) : Player :=
  mkPlayer o (name p) (mass p) (target_x p) (target_y p)
    (gemini_description p) (description_timer p).

Definition set_x (v : R) (p : Player) : Player :=
  set_obj (mkGameObject v (y p) (radius p) (color p)) p.

Definition set_y (v : R) (p : Player) : Player :=
  set_obj (mkGameObject (x p) v (radius p) (color p)) p.

Definition set_radius (v : R) (p : Player) : Player :=
  set_obj (mkGameObject (x p) (y p) v (color p)) p.

Definition set_mass (v : R) (p : Player) : Player :=
  mkPlayer (obj p) (name p) v (target_x p) (target_y p)
    (gemini_description p) (description_timer p).

Definition set_target_x (v : R) (p : Player) : Player :=
  mkPlayer (obj p) (name p) (mass p) v (target_y p)
    (gemini_description p) (description_timer p).

Definition set_target_y (v : R) (p : Player) : Player :=
  mkPlayer (obj p) (name p) (mass p) (target_x p) v
    (gemini_description p) (description_timer p).

Definition set_gemini_description (v : string) (p : Player) : Player :=
  mkPlayer (obj p) (name p) (mass p) (target_x p) (target_y p)
    v (description_timer p).

Definition set_description_timer (v : R) (p : Player) : Player :=
  mkPlayer (obj p) (name p) (mass p) (target_x p) (target_y p)
    (gemini_description p) v.

(** Reading the attributes of [self]. *)
Definition get_self : M Player Player := get.

(** [Player.__init__] (lines 87-96). *)
Definition Player_init (name : string) (color : Color) : Player :=
  let o := mkGameObject 0 0 INITIAL_PLAYER_RADIUS color in
  mkPlayer o name (radius o ^ 2) (x o) (y o) EmptyString 0.

(** [Player.update_target] (lines 98-101). *)
Definition update_target (mouse_x mouse_y camera_x camera_y : R)
    : M Player unit :=
  modify (set_target_x (mouse_x + camera_x)) ;;
  modify (set_target_y (mouse_y + camera_y)).

(** The local [speed] of [Player.move] (lines 110-111). *)
Definition move_speed : M Player R :=
  self <- get_self ;;
  q <- lift (py_div INITIAL_PLAYER_RADIUS (radius self)) ;;
  let speed := PLAYER_SPEED_FACTOR * q in
  let speed := py_max speed 0.1 in
  ret speed.

(** [Player.move] (lines 103-121). *)
Definition move : M Player unit :=
  self <- get_self ;;
  let dx := target_x self - x self in
  let dy := target_y self - y self in
  distance <- lift (math_sqrt (dx ^ 2 + dy ^ 2)) ;;
  if Rgt_dec distance 1 then
    speed <- move_speed ;;
    ux <- lift (py_div dx distance) ;;
    let move_x := ux * speed in
    uy <- lift (py_div dy distance) ;;
    let move_y := uy * speed in
    modify (fun self : Player => set_x (x self + move_x) self) ;;
    modify (fun self : Player => set_y (y self + move_y) self) ;;
    modify (fun self : Player =>
      set_x (py_max (- WORLD_WIDTH / 2 + radius self)
               (py_min (WORLD_WIDTH / 2 - radius self) (x self))) self) ;;
    modify (fun self : Player =>
      set_y (py_max (- WORLD_HEIGHT / 2 + radius self)
               (py_min (WORLD_HEIGHT / 2 - radius self) (y self))) self)
  else ret tt.

(** [Player.grow] (lines 124-127).  The mass is assigned before
    [math.sqrt] can raise. *)
Definition grow (mass_increase : R) : M Player unit :=
  modify (fun self : Player => set_mass (mass self + mass_increase) self) ;;
  self <- get_self ;;
  r <- lift (math_sqrt (mass self)) ;;
  modify (set_radius r) ;;
  modify (fun self : Player => set_radius (py_max (radius self) MIN_PLAYER_RADIUS) self).

(** [Player.eat] (lines 129-137). *)
Definition eat (food : Food) : M Player bool :=
  self <- get_self ;;
  distance <- lift (math_sqrt ((x self - x food) ^ 2 + (y self - y food) ^ 2)) ;;
  if Rlt_dec distance (radius self) then
    grow (radius food ^ 2) ;;
    ret true
  else ret false.

(** [Player.update_description_timer] (lines 160-164). *)
Definition update_description_timer (dt : R) : M Player unit :=
  self <- get_self ;;
  if Rgt_dec (description_timer self) 0 then
    modify (fun self : Player => set_description_timer (description_timer self - dt) self) ;;
    self <- get_self ;;
    if Rle_dec (description_timer self) 0 then
      modify (set_gemini_description EmptyString)
    else ret tt
  else ret tt.

(** ** The random source *)

(** A result of [random.random()]: a number of the interval [0, 1). *)
Record unit_sample : Type := mkSample {
  sample :> R;
  sample_range : 0 <= sample < 1
}.

(** The state of the module [random]: the samples it will give, and how
    many were taken. *)
Record RandomState : Type := mkRandomState {
  tape : nat -> unit_sample;
  cursor : nat
}.

Definition random : M RandomState R :=
  fun g => Ok (sample (tape g (cursor g))) (mkRandomState (tape g) (S (cursor g))).

(** [random.uniform(a, b)] is [a + (b - a) * random()]. *)
Definition uniform (a b : R) : M RandomState R :=
  u <- random ;;
  ret (a + (b - a) * u).

(** [random.randint(a, b)]: an integer of [a..b], here the sample scaled
    to the [b - a + 1] values of the range. *)
Definition randint (a b : Z) : M RandomState Z :=
  u <- random ;;
  ret (a + Int_part (IZR (b - a + 1) * u))%Z.

(** [Food.__init__] (lines 80-84). *)
Definition Food_init : M RandomState Food :=
  x <- uniform (- WORLD_WIDTH / 2) (WORLD_WIDTH / 2) ;;
  y <- uniform (- WORLD_HEIGHT / 2) (WORLD_HEIGHT / 2) ;;
  r <- randint 50 255 ;;
  g <- randint 50 255 ;;
  b <- randint 50 255 ;;
  ret (mkGameObject x y FOOD_RADIUS (r, g, b)).

(** ** Game functions *)

(** The loop of [spawn_food] (lines 171-172). *)
Fixpoint spawn_food_from (count : nat) (food_list : list Food)
    : M RandomState (list Food) :=
  match count with
  | O => ret food_list
  | S count' =>
      food <- Food_init ;;
      spawn_food_from count' (food_list ++ [food])
  end.

(** [spawn_food] (lines 169-173). *)
Definition spawn_food (count : nat) : M RandomState (list Food) :=
  spawn_food_from count [].

(** ** List builtins *)

(** [l.pop(i)] for [i >= 0]: the list without its element [i], and
    [IndexError] past the end. *)
Fixpoint list_pop {A : Type} (i : nat) (l : list A) {struct l}
    : exn + list A :=
  match l, i with
  | [], _ => inl IndexError
  | _ :: t, O => inr t
  | a :: t, S i' =>
      match list_pop i' t with
      | inl e => inl e
      | inr t' => inr (a :: t')
      end
  end.

(** [sorted(l, reverse=True)] on indices, by insertion; equal elements
    keep their order. *)
Fixpoint insert_desc (n : nat) (l : list nat) : list nat :=
  match l with
  | [] => [n]
  | m :: t => if (m <=? n)%nat then n :: l else m :: insert_desc n t
  end.

Fixpoint sorted_reverse (l : list nat) : list nat :=
  match l with
  | [] => []
  | n :: t => insert_desc n (sorted_reverse t)
  end.

(** ** String builtins (ASCII text) *)

(** [str.isspace] on one ASCII character: tab to carriage return, the
    four separators 28-31, and the space. *)
Definition py_isspace (c : ascii) : bool :=
  let n := nat_of_ascii c in
  ((9 <=? n) && (n <=? 13) || (28 <=? n) && (n <=? 32))%nat%bool.

Fixpoint lstrip (s : string) : string :=
  match s with
  | EmptyString => EmptyString
  | String c t => if py_isspace c then lstrip t else s
  end.

Fixpoint rstrip (s : string) : string :=
  match s with
  | EmptyString => EmptyString
  | String c t =>
      match rstrip t with
      | EmptyString => if py_isspace c then EmptyString else String c EmptyString
      | t' => String c t'
      end
  end.

(** [s.strip()]. *)
Definition strip (s : string) : string := rstrip (lstrip s).

(** [s.replace(c, '')] for a one-character [c]. *)
Fixpoint remove_char (c : ascii) (s : string) : string :=
  match s with
  | EmptyString => EmptyString
  | String d t => if Ascii.eqb d c then remove_char c t else String d (remove_char c t)
  end.

Definition double_quote : ascii := ascii_of_nat 34.

(** The texts on which the builtins above are those of Python: every
    character is an ASCII one. *)
Definition ascii_text (s : string) : bool :=
  forallb (fun c : ascii => (nat_of_ascii c <? 128)%nat) (list_ascii_of_string s).

(** What [str.strip] promises, said without [lstrip] and [rstrip]: what it
    cuts is whitespace only, and what it leaves neither starts nor ends
    with whitespace. *)
Fixpoint all_space (s : string) : bool :=
  match s with
  | EmptyString => true
  | String c t => py_isspace c && all_space t
  end.

Definition starts_clean (s : string) : bool :=
  match s with
  | EmptyString => true
  | String c _ => negb (py_isspace c)
  end.

Fixpoint ends_clean (s : string) : bool :=
  match s with
  | EmptyString => true
  | String c t =>
      match t with
      | EmptyString => negb (py_isspace c)
      | String _ _ => ends_clean t
      end
  end.

(** An answer as the service gives them: a sentence between double
    quotes, after a space and before a line feed. *)
Definition quoted_reply : string :=
  String (ascii_of_nat 32)
    (String double_quote
       ("a cell" ++ String double_quote (String (ascii_of_nat 10) EmptyString))).

(** ** The state of [main] *)

Definition SCREEN_WIDTH : R := 800.
Definition SCREEN_HEIGHT : R := 600.

(** The locals of [main] that the simulation reads and writes, with the
    state of the module [random]. *)
Record Game : Type := mkGame {
  running : bool;
  player : Player;
  food_list : list Food;
  camera_x : R;
  camera_y : R;
  gemini_request_in_progress : bool;
  gemini_description_text : string;
  random_state : RandomState
}.

Definition set_running (v : bool) (g : Game) : Game :=
  mkGame v (player g) (food_list g) (camera_x g) (camera_y g)
    (gemini_request_in_progress g) (gemini_description_text g) (random_state g).

Definition set_player (v : Player) (g : Game) : Game :=
  mkGame (running g) v (food_list g) (camera_x g) (camera_y g)
    (gemini_request_in_progress g) (gemini_description_text g) (random_state g).

Definition set_food_list (v : list Food) (g : Game) : Game :=
  mkGame (running g) (player g) v (camera_x g) (camera_y g)
    (gemini_request_in_progress g) (gemini_description_text g) (random_state g).

Definition set_camera_x (v : R) (g : Game) : Game :=
  mkGame (running g) (player g) (food_list g) v (camera_y g)
    (gemini_request_in_progress g) (gemini_description_text g) (random_state g).

Definition set_camera_y (v : R) (g : Game) : Game :=
  mkGame (running g) (player g) (food_list g) (camera_x g) v
    (gemini_request_in_progress g) (gemini_description_text g) (random_state g).

Definition set_gemini_request_in_progress (v : bool) (g : Game) : Game :=
  mkGame (running g) (player g) (food_list g) (camera_x g) (camera_y g)
    v (gemini_description_text g) (random_state g).

Definition set_gemini_description_text (v : string) (g : Game) : Game :=
  mkGame (running g) (player g) (food_list g) (camera_x g) (camera_y g)
    (gemini_request_in_progress g) v (random_state g).

Definition set_random_state (v : RandomState) (g : Game) : Game :=
  mkGame (running g) (player g) (food_list g) (camera_x g) (camera_y g)
    (gemini_request_in_progress g) (gemini_description_text g) v.

Definition get_game : M Game Game := get.

(** A method call on [player], and a call into [random]. *)
Definition on_player {A : Type} (m : M Player A) : M Game A :=
  zoom player set_player m.

Definition on_random {A : Type} (m : M RandomState A) : M Game A :=
  zoom random_state set_random_state m.

(** [main], lines 203-213: the state before the first frame. *)
Definition main_init : M RandomState Game :=
  r <- randint 50 200 ;;
  g <- randint 50 200 ;;
  b <- randint 50 200 ;;
  let player := Player_init "MyCell" (r, g, b) in
  food_list <- spawn_food FOOD_COUNT ;;
  random_state <- get ;;
  ret (mkGame true player food_list
         (x player - SCREEN_WIDTH / 2) (y player - SCREEN_HEIGHT / 2)
         false EmptyString random_state).

(** ** The annotation request (lines 227-247) *)

Definition DESCRIPTION_DURATION : R := 5.

(** What the call to the text service gives: the text of the response, or
    an exception raised inside the [try] block. *)
Inductive gemini_reply : Type :=
| Reply (text : string)
| Failure.

(** The body run for the key [G]; [gemini_available] is the module flag set
    at start-up. *)
Definition on_key_g (gemini_available : bool) (reply : gemini_reply)
    : M Game unit :=
  g <- get_game ;;
  if (gemini_available && negb (gemini_request_in_progress g))%bool then
    modify (set_gemini_request_in_progress true) ;;
    on_player (modify (set_gemini_description "Getting description...")) ;;
    on_player (modify (set_description_timer 2)) ;;
    match reply with
    | Reply text =>
        modify (set_gemini_description_text
                  (remove_char double_quote (strip text))) ;;
        g <- get_game ;;
        on_player (modify (set_gemini_description (gemini_description_text g))) ;;
        on_player (modify (set_description_timer DESCRIPTION_DURATION))
    | Failure =>
        on_player (modify (set_gemini_description "Gemini error :(")) ;;
        on_player (modify (set_description_timer 2))
    end ;;
    modify (set_gemini_request_in_progress false)
  else ret tt.

(** The events that the loop distinguishes (lines 220-227). *)
Inductive key : Type :=
| K_ESCAPE
| K_g
| K_other.

Inductive event : Type :=
| QUIT
| KEYDOWN (k : key)
| OTHER.

(** The body of the event loop for one event; [reply] is what the text
    service answers if this event makes a request. *)
Definition handle_event (gemini_available : bool) (e : event)
    (reply : gemini_reply) : M Game unit :=
  match e with
  | QUIT => modify (set_running false)
  | KEYDOWN k =>
      match k with
      | K_ESCAPE => modify (set_running false)
      | K_g => on_key_g gemini_available reply
      | K_other => ret tt
      end
  | OTHER => ret tt
  end.

(** ** The consumption pass (lines 266-275) *)

(** Lines 268-270: [eat] on every food in list order, collecting the
    indices of the eaten ones. *)
Fixpoint eat_each (i : nat) (foods : list Food) (eaten_food_indices : list nat)
    : M Player (list nat) :=
  match foods with
  | [] => ret eaten_food_indices
  | food :: rest =>
      eaten <- eat food ;;
      eat_each (S i) rest
        (if eaten : bool then eaten_food_indices ++ [i] else eaten_food_indices)
  end.

(** Lines 273-275: every index popped, a new [Food] appended for it. *)
Fixpoint replace_eaten (indices : list nat) : M Game unit :=
  match indices with
  | [] => ret tt
  | i :: rest =>
      g <- get_game ;;
      remaining <- lift (list_pop i (food_list g)) ;;
      modify (set_food_list remaining) ;;
      food <- on_random Food_init ;;
      modify (fun g : Game => set_food_list (food_list g ++ [food]) g) ;;
      replace_eaten rest
  end.

(** The whole pass; its value is [eaten_food_indices]. *)
Definition resolve_consumption : M Game (list nat) :=
  g <- get_game ;;
  eaten_food_indices <- on_player (eat_each 0 (food_list g) []) ;;
  replace_eaten (sorted_reverse eaten_food_indices) ;;
  ret eaten_food_indices.

(** ** The state updates of one frame (lines 252-278) *)

Definition update_game_state (mouse_x mouse_y dt : R) : M Game unit :=
  g <- get_game ;;
  on_player (update_target mouse_x mouse_y (camera_x g) (camera_y g)) ;;
  on_player move ;;
  modify (fun g : Game => set_camera_x (x (player g) - SCREEN_WIDTH / 2) g) ;;
  modify (fun g : Game => set_camera_y (y (player g) - SCREEN_HEIGHT / 2) g) ;;
  modify (fun g : Game =>
    set_camera_x (py_max (- WORLD_WIDTH / 2 + SCREEN_WIDTH / 2)
                    (py_min (WORLD_WIDTH / 2 - SCREEN_WIDTH / 2) (camera_x g))) g) ;;
  modify (fun g : Game =>
    set_camera_y (py_max (- WORLD_HEIGHT / 2 + SCREEN_HEIGHT / 2)
                    (py_min (WORLD_HEIGHT / 2 - SCREEN_HEIGHT / 2) (camera_y g))) g) ;;
  resolve_consumption ;;
  on_player (update_description_timer dt).

(** ** Closed forms used in the statements *)

(** The state [grow] leaves behind when [math.sqrt] succeeds. *)
Definition grown (mass_increase : R) (p : Player) : Player :=
  let m := mass p + mass_increase in
  mkPlayer (mkGameObject (x p) (y p) (Rmax (sqrt m) MIN_PLAYER_RADIUS) (color p))
    (name p) m (target_x p) (target_y p)
    (gemini_description p) (description_timer p).

(** The Euclidean distance between the centres of two objects. *)
Definition center_distance (a b : GameObject) : R :=
  sqrt ((x a - x b) ^ 2 + (y a - y b) ^ 2).

(** The call [self.eat(food)] seen on both objects it receives: [eat] reads
    [food.x], [food.y] and [food.radius] and assigns to no attribute of
    [food]. *)
Definition eat_call : M (Player * Food) bool :=
  s <- get ;;
  zoom fst (fun (p : Player) (s : Player * Food) => (p, snd s)) (eat (snd s)).

(** A player as [main] creates it, with the default colour of
    [Player.__init__], and a food at a chosen place. *)
Definition player0 : Player := Player_init "MyCell" (0, 150, 255)%Z.

Definition food_at (fx fy : R) : Food :=
  mkGameObject fx fy FOOD_RADIUS (50, 50, 50)%Z.

(** The radius that [grow] derives from a mass. *)
Definition radius_of_mass (m : R) : R := Rmax (sqrt m) MIN_PLAYER_RADIUS.

(** The speed computed by [move] for a radius. *)
Definition speed_of_radius (r : R) : R :=
  Rmax (PLAYER_SPEED_FACTOR * (INITIAL_PLAYER_RADIUS / r)) 0.1.

(** The distance from the player to its movement target. *)
Definition target_distance (p : Player) : R :=
  sqrt ((target_x p - x p) ^ 2 + (target_y p - y p) ^ 2).

(** The state [move] leaves behind when the target is further than one
    unit and the radius is not zero. *)
Definition moved (p : Player) : Player :=
  let d := target_distance p in
  let s := speed_of_radius (radius p) in
  let nx := x p + (target_x p - x p) / d * s in
  let ny := y p + (target_y p - y p) / d * s in
  set_obj
    (mkGameObject
       (Rmax (- WORLD_WIDTH / 2 + radius p) (Rmin (WORLD_WIDTH / 2 - radius p) nx))
       (Rmax (- WORLD_HEIGHT / 2 + radius p) (Rmin (WORLD_HEIGHT / 2 - radius p) ny))
       (radius p) (color p))
    p.

(** A player resting against the right wall after its radius grew to
    [sqrt 425], pointing at its own centre; and a player of radius 1500. *)
Definition player_at_wall : Player :=
  mkPlayer (mkGameObject 980 0 (sqrt 425) (0, 150, 255)%Z)
    "MyCell" 425 980 0 EmptyString 0.

Definition player_huge : Player :=
  mkPlayer (mkGameObject 0 0 1500 (0, 150, 255)%Z)
    "MyCell" (1500 ^ 2) 100 0 EmptyString 0.

(** ** Closed forms for the random source *)

(** The random state after [n] more samples were taken. *)
Definition advance (n : nat) (g : RandomState) : RandomState :=
  mkRandomState (tape g) (n + cursor g).

(** The sample [k] places after the cursor. *)
Definition sample_at (k : nat) (g : RandomState) : R :=
  sample (tape g (k + cursor g)).

(** The food that [Food()] builds from a random state: five samples. *)
Definition food_drawn (g : RandomState) : Food :=
  mkGameObject
    (- WORLD_WIDTH / 2 + (WORLD_WIDTH / 2 - - WORLD_WIDTH / 2) * sample_at 0 g)
    (- WORLD_HEIGHT / 2 + (WORLD_HEIGHT / 2 - - WORLD_HEIGHT / 2) * sample_at 1 g)
    FOOD_RADIUS
    ((50 + Int_part (IZR (255 - 50 + 1) * sample_at 2 g))%Z,
     (50 + Int_part (IZR (255 - 50 + 1) * sample_at 3 g))%Z,
     (50 + Int_part (IZR (255 - 50 + 1) * sample_at 4 g))%Z).

(** The foods of [k] successive calls of [Food()], and the random state
    after them. *)
Fixpoint fresh_foods (k : nat) (g : RandomState) : list Food :=
  match k with
  | O => []
  | S k' => food_drawn g :: fresh_foods k' (advance 5 g)
  end.

Definition skip_foods (k : nat) (g : RandomState) : RandomState :=
  Nat.iter k (advance 5) g.

(** The centre of an object is inside the world; the whole disc of an
    object is inside the world. *)
Definition center_in_world (o : GameObject) : Prop :=
  Rabs (x o) <= WORLD_WIDTH / 2 /\ Rabs (y o) <= WORLD_HEIGHT / 2.

Definition disc_in_world (o : GameObject) : Prop :=
  Rabs (x o) <= WORLD_WIDTH / 2 - radius o /\
  Rabs (y o) <= WORLD_HEIGHT / 2 - radius o.

(** A random source that always gives 0.9995, and one that always gives
    0.5. *)
Definition near_one : unit_sample := mkSample 0.9995 ltac:(split; lra).
Definition one_half : unit_sample := mkSample 0.5 ltac:(split; lra).

Definition random_near_one : RandomState := mkRandomState (fun _ => near_one) 0.
Definition random_half : RandomState := mkRandomState (fun _ => one_half) 0.

(** A game state before a frame: the initial player, two foods, the
    camera centred on the player, no request in progress. *)
Definition game0 : Game :=
  mkGame true player0 [food_at 5 0; food_at 30 0]
    (x player0 - SCREEN_WIDTH / 2) (y player0 - SCREEN_HEIGHT / 2)
    false EmptyString random_half.

(** ** Closed forms for the consumption pass *)

(** The test of [eat] as a boolean. *)
Definition in_reach (p : Player) (f : Food) : bool :=
  if Rlt_dec (center_distance p f) (radius p) then true else false.

(** What the loop of lines 268-270 computes on a player whose mass stays
    non-negative: the indices of the eaten foods (counted from [i]), the
    eaten foods, the foods left, and the player after the loop. *)
Fixpoint eaten_indices (i : nat) (foods : list Food) (p : Player) : list nat :=
  match foods with
  | [] => []
  | f :: rest =>
      if in_reach p f
      then i :: eaten_indices (S i) rest (grown (radius f ^ 2) p)
      else eaten_indices (S i) rest p
  end.

Fixpoint eaten_foods (foods : list Food) (p : Player) : list Food :=
  match foods with
  | [] => []
  | f :: rest =>
      if in_reach p f
      then f :: eaten_foods rest (grown (radius f ^ 2) p)
      else eaten_foods rest p
  end.

Fixpoint uneaten (foods : list Food) (p : Player) : list Food :=
  match foods with
  | [] => []
  | f :: rest =>
      if in_reach p f
      then uneaten rest (grown (radius f ^ 2) p)
      else f :: uneaten rest p
  end.

Fixpoint fed (foods : list Food) (p : Player) : Player :=
  match foods with
  | [] => p
  | f :: rest =>
      if in_reach p f
      then fed rest (grown (radius f ^ 2) p)
      else fed rest p
  end.

(** A list without its element [i]. *)
Fixpoint drop_index {A : Type} (i : nat) (l : list A) {struct l}
    : list A :=
  match l, i with
  | [], _ => []
  | _ :: t, O => t
  | a :: t, S i' => a :: drop_index i' t
  end.

(** The foods that a list of indices names. *)
Fixpoint foods_at (indices : list nat) (l : list Food) : list Food :=
  match indices with
  | [] => []
  | i :: rest =>
      match nth_error l i with
      | Some f => f :: foods_at rest l
      | None => foods_at rest l
      end
  end.

(** The sum of the squared radii of a list of foods. *)
Fixpoint total_area (l : list Food) : R :=
  match l with
  | [] => 0
  | f :: rest => radius f ^ 2 + total_area rest
  end.

(** The state of [main] with a given player and food list. *)
Definition game_with (p : Player) (l : list Food) : Game :=
  set_food_list l (set_player p game0).

(** The state of [main] after [k] foods were replaced: the food list is
    [l] followed by [k] new foods. *)
Definition replenished (l : list Food) (k : nat) (g : Game) : Game :=
  set_random_state (skip_foods k (random_state g))
    (set_food_list (l ++ fresh_foods k (random_state g)) g).

(** A food well inside the reach of the initial player, and one just
    outside it. *)
Definition food_near : Food := food_at 5 0.
Definition food_edge : Food := food_at 20.3 0.

(** The player after eating the foods of a list all at once. *)
Definition fed_by (eaten : list Food) (p : Player) : Player :=
  match eaten with
  | [] => p
  | _ :: _ => grown (total_area eaten) p
  end.

(** The player states that can be observed: the state built by
    [Player.__init__], and every state a method call returns from an
    observable one ([grow] with the non-negative increases that [eat]
    passes to it, and the two annotation attributes assigned by [main]). *)
Inductive observable : Player -> Prop :=
| obs_init (name : string) (color : Color) :
    observable (Player_init name color)
| obs_update_target (p p' : Player) (mouse_x mouse_y camera_x camera_y : R) :
    observable p ->
    update_target mouse_x mouse_y camera_x camera_y p = Ok tt p' ->
    observable p'
| obs_move (p p' : Player) :
    observable p -> move p = Ok tt p' -> observable p'
| obs_grow (p p' : Player) (mass_increase : R) :
    observable p -> 0 <= mass_increase ->
    grow mass_increase p = Ok tt p' ->
    observable p'
| obs_eat (p p' : Player) (food : Food) (eaten : bool) :
    observable p -> eat food p = Ok eaten p' -> observable p'
| obs_update_description_timer (p p' : Player) (dt : R) :
    observable p -> update_description_timer dt p = Ok tt p' ->
    observable p'
| obs_annotation (p : Player) (text : string) (timer : R) :
    observable p ->
    observable (set_description_timer timer (set_gemini_description text p)).

(** [q] is a state of a pass that started at [p0]: same place, a radius
    between the one of [p0] and [Rf]. *)
Definition between (p0 : Player) (Rf : R) (q : Player) : Prop :=
  x q = x p0 /\ y q = y p0 /\ radius p0 <= radius q <= Rf.

(** No food of [l] lies at a distance from [p0] between its radius and
    [Rf]. *)
Definition gap_free (p0 : Player) (Rf : R) (l : list Food) : Prop :=
  forall f : Food, In f l ->
    center_distance p0 f < radius p0 \/ Rf <= center_distance p0 f.

(** ** Drawing (lines 69-77, 139-158, 175-195, 281-310) *)

From Stdlib Require Import DecimalString.

Definition WHITE : Color := (255, 255, 255)%Z.
Definition DARK_GRAY : Color := (150, 150, 150)%Z.

(** [int(v)] on a number: the integer towards zero. *)
Definition py_int (v : R) : Z :=
  if Rle_dec 0 v then Int_part v else (- Int_part (- v))%Z.

(** [a <= b] and [a > b] as conditions. *)
Definition py_le (a b : R) : bool := if Rle_dec a b then true else false.
Definition py_gt (a b : R) : bool := if Rgt_dec a b then true else false.

(** The truth value of a string: it is not empty. *)
Definition py_bool_str (s : string) : bool :=
  match s with
  | EmptyString => false
  | String _ _ => true
  end.

(** A [pygame.Rect]. *)
Record Rect : Type := mkRect {
  rect_x : R;
  rect_y : R;
  rect_width : R;
  rect_height : R
}.

Definition set_rect_x (v : R) (r : Rect) : Rect :=
  mkRect v (rect_y r) (rect_width r) (rect_height r).

Definition set_rect_y (v : R) (r : Rect) : Rect :=
  mkRect (rect_x r) v (rect_width r) (rect_height r).

(** The two fonts of lines 56-57. *)
Inductive Font : Type :=
| font
| small_font.

(** The calls made to the drawing functions of pygame, with their
    arguments. *)
Inductive draw_call : Type :=
| fill_screen (color : Color)
| draw_rect (color : Color) (left top width height : R)
| draw_circle (color : Color) (center_x center_y circle_radius : Z)
| draw_line (color : Color) (start_x start_y end_x end_y : R)
| blit_text (f : Font) (text : string) (color : Color) (dest : Rect)
| blit_at (f : Font) (text : string) (color : Color) (dest_x dest_y : R)
| display_flip.

(** A surface is known by the calls that drew on it, oldest first. *)
Definition Surface : Type := list draw_call.

Definition emit (c : draw_call) : M Surface unit :=
  modify (fun surface : Surface => surface ++ [c]).

(** [GameObject.draw] (lines 69-77). *)
Definition GameObject_draw (self : GameObject) (camera_x camera_y : R)
    : M Surface unit :=
  let screen_x := x self - camera_x in
  let screen_y := y self - camera_y in
  if (py_le (- radius self) screen_x
      && py_le screen_x (SCREEN_WIDTH + radius self)
      && (py_le (- radius self) screen_y
          && py_le screen_y (SCREEN_HEIGHT + radius self)))%bool
  then emit (draw_circle (color self) (py_int screen_x) (py_int screen_y)
               (py_int (radius self)))
  else ret tt.

(** [Player.draw] (lines 139-158).  [text_rect f text center] is the
    rectangle pygame gives to [text] rendered in [f] and centred at
    [center]: the result of [render(...).get_rect(center=...)]. *)
Definition Player_draw (text_rect : Font -> string -> R * R -> Rect)
    (self : Player) (camera_x camera_y : R) : M Surface unit :=
  GameObject_draw self camera_x camera_y ;;
  let screen_x := x self - camera_x in
  let screen_y := y self - camera_y in
  let name_rect :=
    text_rect font (name self) (IZR (py_int screen_x), IZR (py_int screen_y)) in
  emit (blit_text font (name self) WHITE name_rect) ;;
  if (py_bool_str (gemini_description self)
      && py_gt (description_timer self) 0)%bool
  then
    let desc_rect :=
      text_rect small_font (gemini_description self)
        (IZR (py_int screen_x), IZR (py_int screen_y) + radius self + 15) in
    let desc_rect :=
      set_rect_x (py_max 0 (py_min (SCREEN_WIDTH - rect_width desc_rect)
                              (rect_x desc_rect))) desc_rect in
    let desc_rect :=
      set_rect_y (py_max 0 (py_min (SCREEN_HEIGHT - rect_height desc_rect)
                              (rect_y desc_rect))) desc_rect in
    emit (blit_text small_font (gemini_description self) WHITE desc_rect)
  else ret tt.

(** [range(start, stop, step)] as the list of its values; a zero step is a
    [ValueError]. *)
Definition py_range (start stop step : Z) : exn + list Z :=
  if (step =? 0)%Z then inl ValueError
  else
    let count :=
      if (0 <? step)%Z
      then (if (start <? stop)%Z then (stop - start + step - 1) / step else 0)%Z
      else (if (stop <? start)%Z then (start - stop - step - 1) / (- step) else 0)%Z in
    inr (map (fun k : nat => (start + Z.of_nat k * step)%Z)
           (seq 0 (Z.to_nat count))).

(** A [for] loop over a list. *)
Fixpoint for_each {S A : Type} (l : list A) (body : A -> M S unit) : M S unit :=
  match l with
  | [] => ret tt
  | a :: rest => body a ;; for_each rest body
  end.

(** [draw_grid] (lines 175-195); [grid_size] is an integer, 50 when it is
    not given. *)
Definition draw_grid (camera_x camera_y : R) (grid_size : Z) (color : Color)
    : M Surface unit :=
  let start_x := py_int (camera_x - SCREEN_WIDTH / 2) in
  let start_y := py_int (camera_y - SCREEN_HEIGHT / 2) in
  let end_x := py_int (camera_x + SCREEN_WIDTH / 2) in
  let end_y := py_int (camera_y + SCREEN_HEIGHT / 2) in
  qx <- lift (py_div (IZR start_x) (IZR grid_size)) ;;
  let first_grid_x := ((py_int qx - 1) * grid_size)%Z in
  qy <- lift (py_div (IZR start_y) (IZR grid_size)) ;;
  let first_grid_y := ((py_int qy - 1) * grid_size)%Z in
  xs <- lift (py_range first_grid_x (end_x + grid_size) grid_size) ;;
  for_each xs (fun x : Z =>
    let screen_x := py_int (IZR x - camera_x) in
    if (py_le (- WORLD_WIDTH / 2) (IZR x) && py_le (IZR x) (WORLD_WIDTH / 2))%bool
    then emit (draw_line color (IZR screen_x) 0 (IZR screen_x) SCREEN_HEIGHT)
    else ret tt) ;;
  ys <- lift (py_range first_grid_y (end_y + grid_size) grid_size) ;;
  for_each ys (fun y : Z =>
    let screen_y := py_int (IZR y - camera_y) in
    if (py_le (- WORLD_HEIGHT / 2) (IZR y) && py_le (IZR y) (WORLD_HEIGHT / 2))%bool
    then emit (draw_line color 0 (IZR screen_y) SCREEN_WIDTH (IZR screen_y))
    else ret tt).

(** [str(n)] for an integer: its decimal digits. *)
Definition py_str_int (n : Z) : string :=
  NilZero.string_of_int (Z.to_int n).

Definition BLACK : Color := (0, 0, 0)%Z.
Definition GRAY : Color := (200, 200, 200)%Z.

(** The drawing of a turn (lines 281-310), on the state left by the
    state updates; [draw_grid] gets its grid size and colour by
    default. *)
Definition draw_frame (text_rect : Font -> string -> R * R -> Rect)
    (g : Game) : M Surface unit :=
  emit (fill_screen BLACK) ;;
  let world_left := - WORLD_WIDTH / 2 - camera_x g in
  let world_top := - WORLD_HEIGHT / 2 - camera_y g in
  emit (draw_rect (20, 20, 20)%Z world_left world_top WORLD_WIDTH WORLD_HEIGHT) ;;
  draw_grid (camera_x g) (camera_y g) 50 DARK_GRAY ;;
  for_each (food_list g) (fun food : Food =>
    GameObject_draw food (camera_x g) (camera_y g)) ;;
  Player_draw text_rect (player g) (camera_x g) (camera_y g) ;;
  emit (blit_at font ("Mass: " ++ py_str_int (py_int (mass (player g))))
          WHITE 10 10) ;;
  emit (blit_at small_font
          "Move mouse to move. Press G for Gemini description."
          GRAY 10 (SCREEN_HEIGHT - 30)) ;;
  emit display_flip.

(** ** The loop of [main] (lines 216-278) *)

(** What one turn of the loop receives from outside: the time since the
    last turn, the events with the answer the text service would give to
    each, and the place of the mouse. *)
Record frame_input : Type := mkFrameInput {
  frame_dt : R;
  frame_events : list (event * gemini_reply);
  frame_mouse_x : R;
  frame_mouse_y : R
}.

(** Lines 220-247: the events of a turn, in order. *)
Definition handle_events (gemini_available : bool)
    (events : list (event * gemini_reply)) : M Game unit :=
  for_each events (fun er : event * gemini_reply =>
    handle_event gemini_available (fst er) (snd er)).

(** Lines 217-278: one turn without its drawing, which reads the state
    and writes only to the screen. *)
Definition frame (gemini_available : bool) (i : frame_input) : M Game unit :=
  handle_events gemini_available (frame_events i) ;;
  update_game_state (frame_mouse_x i) (frame_mouse_y i) (frame_dt i).

(** [while running:] over the inputs of the turns that are played. *)
Fixpoint main_loop (gemini_available : bool) (inputs : list frame_input)
    : M Game unit :=
  match inputs with
  | [] => ret tt
  | i :: rest =>
      g <- get_game ;;
      if running g
      then frame gemini_available i ;; main_loop gemini_available rest
      else ret tt
  end.

(** [main] (lines 199-312): the state built at the start, then the loop;
    the value is the outcome of the loop. *)
Definition main (gemini_available : bool) (inputs : list frame_input)
    : M RandomState (outcome Game unit) :=
  g <- main_init ;;
  ret (main_loop gemini_available inputs g).

(** ** Closed forms for the turns of the loop *)

(** The player after [update_description_timer]. *)
Definition ticked (dt : R) (p : Player) : Player :=
  if Rgt_dec (description_timer p) 0 then
    let p1 := set_description_timer (description_timer p - dt) p in
    if Rle_dec (description_timer p - dt) 0
    then set_gemini_description EmptyString p1
    else p1
  else p.

(** The player after [move], when its radius is not zero. *)
Definition after_move (p : Player) : Player :=
  if Rgt_dec (target_distance p) 1 then moved p else p.

(** The player after [update_target]. *)
Definition retargeted (tx ty : R) (p : Player) : Player :=
  set_target_y ty (set_target_x tx p).

(** An annotation of five seconds on the initial player. *)
Definition player_hello : Player :=
  set_description_timer 5 (set_gemini_description "hello" player0).

(** The state of [main] after the state updates of a turn, when no call
    raises. *)
Definition updated (mouse_x mouse_y dt : R) (g : Game) : Game :=
  let p1 :=
    after_move
      (retargeted (mouse_x + camera_x g) (mouse_y + camera_y g) (player g)) in
  let eaten := eaten_indices 0 (food_list g) p1 in
  mkGame (running g)
    (ticked dt (fed (food_list g) p1))
    (uneaten (food_list g) p1 ++ fresh_foods (length eaten) (random_state g))
    (Rmax (- WORLD_WIDTH / 2 + SCREEN_WIDTH / 2)
       (Rmin (WORLD_WIDTH / 2 - SCREEN_WIDTH / 2) (x p1 - SCREEN_WIDTH / 2)))
    (Rmax (- WORLD_HEIGHT / 2 + SCREEN_HEIGHT / 2)
       (Rmin (WORLD_HEIGHT / 2 - SCREEN_HEIGHT / 2) (y p1 - SCREEN_HEIGHT / 2)))
    (gemini_request_in_progress g) (gemini_description_text g)
    (skip_foods (length eaten) (random_state g)).

(** An annotation with a text has time left. *)
Definition annotation_ok (p : Player) : Prop :=
  gemini_description p <> EmptyString -> 0 < description_timer p.

(** What every turn of the loop keeps. *)
Definition game_invariant (g : Game) : Prop :=
  (exists n : nat,
     mass (player g) = INITIAL_PLAYER_RADIUS ^ 2 + FOOD_RADIUS ^ 2 * INR n) /\
  radius (player g) = sqrt (mass (player g)) /\
  length (food_list g) = FOOD_COUNT /\
  Forall (fun f : Food => center_in_world f /\ radius f = FOOD_RADIUS)
    (food_list g) /\
  gemini_request_in_progress g = false /\
  annotation_ok (player g) /\
  - WORLD_WIDTH / 2 + SCREEN_WIDTH / 2 <= camera_x g
    <= WORLD_WIDTH / 2 - SCREEN_WIDTH / 2 /\
  - WORLD_HEIGHT / 2 + SCREEN_HEIGHT / 2 <= camera_y g
    <= WORLD_HEIGHT / 2 - SCREEN_HEIGHT / 2.

(** ** Closed forms for the drawing *)

(** The values of [range(start, stop, step)] for a step that is not
    zero. *)
Definition range_values (start stop step : Z) : list Z :=
  match py_range start stop step with
  | inr l => l
  | inl _ => []
  end.

(** The line that [draw_grid] draws for the world abscissa [xw], and the
    one for the world ordinate [yw]. *)
Definition vertical_line (color : Color) (camera_x : R) (xw : Z) : draw_call :=
  draw_line color (IZR (py_int (IZR xw - camera_x))) 0
    (IZR (py_int (IZR xw - camera_x))) SCREEN_HEIGHT.

Definition horizontal_line (color : Color) (camera_y : R) (yw : Z) : draw_call :=
  draw_line color 0 (IZR (py_int (IZR yw - camera_y)))
    SCREEN_WIDTH (IZR (py_int (IZR yw - camera_y))).

(** The lines drawn for a list of abscissas, and for a list of
    ordinates: those inside the world. *)
Definition vertical_lines (color : Color) (camera_x : R) (xs : list Z)
    : Surface :=
  flat_map (fun xw : Z =>
    if (py_le (- WORLD_WIDTH / 2) (IZR xw) && py_le (IZR xw) (WORLD_WIDTH / 2))%bool
    then [vertical_line color camera_x xw] else []) xs.

Definition horizontal_lines (color : Color) (camera_y : R) (ys : list Z)
    : Surface :=
  flat_map (fun yw : Z =>
    if (py_le (- WORLD_HEIGHT / 2) (IZR yw) && py_le (IZR yw) (WORLD_HEIGHT / 2))%bool
    then [horizontal_line color camera_y yw] else []) ys.

(** The first value of the two loops of [draw_grid]. *)
Definition first_grid (start grid_size : Z) : Z :=
  ((py_int (IZR start / IZR grid_size) - 1) * grid_size)%Z.

(** The test of [GameObject.draw]: the centre is within the radius of the
    screen in both directions. *)
Definition on_screen (o : GameObject) (camera_x camera_y : R) : bool :=
  (py_le (- radius o) (x o - camera_x)
   && py_le (x o - camera_x) (SCREEN_WIDTH + radius o)
   && (py_le (- radius o) (y o - camera_y)
       && py_le (y o - camera_y) (SCREEN_HEIGHT + radius o)))%bool.

(** The circle that [GameObject.draw] draws. *)
Definition circle_of (o : GameObject) (camera_x camera_y : R) : draw_call :=
  draw_circle (color o) (py_int (x o - camera_x)) (py_int (y o - camera_y))
    (py_int (radius o)).

(** A text size for every text: 10 by 20 for each character, placed with
    its centre at the point asked for. *)
Definition sample_text_rect (f : Font) (text : string) (center : R * R) : Rect :=
  let w := 10 * INR (String.length text) in
  mkRect (fst center - w / 2) (snd center - 10) w 20.

(** The circles drawn for the foods of a list: those on the screen, in the
    order of the list. *)
Definition food_circles (foods : list Food) (camera_x camera_y : R) : Surface :=
  flat_map (fun f : Food =>
    if on_screen f camera_x camera_y then [circle_of f camera_x camera_y]
    else []) foods.

(** ** Facts about the builtins *)

(** Unfolds the settings and the sample objects, then computes the record
    projections. *)
Ltac settings :=
  unfold player0, Player_init, food_at, center_distance, target_distance,
    set_x, set_y, set_radius, set_obj, set_mass, set_target_x, set_target_y,
    set_gemini_description, set_description_timer,
    WORLD_WIDTH, WORLD_HEIGHT, INITIAL_PLAYER_RADIUS, PLAYER_SPEED_FACTOR,
    MIN_PLAYER_RADIUS, FOOD_RADIUS, SCREEN_WIDTH, SCREEN_HEIGHT in *;
  cbn [x y radius color obj name mass target_x target_y
       gemini_description description_timer] in *.

Lemma math_sqrt_nonneg (v : R) : 0 <= v -> math_sqrt v = inr (sqrt v).
Proof.
  intros Hv. unfold math_sqrt.
  destruct (Rlt_dec v 0) as [Hneg | _]; [lra | reflexivity].
Qed.

Lemma math_sqrt_negative (v : R) : v < 0 -> math_sqrt v = inl ValueError.
Proof.
  intros Hv. unfold math_sqrt.
  destruct (Rlt_dec v 0) as [_ | Hpos]; [reflexivity | lra].
Qed.

Lemma py_div_nonzero (a b : R) : b <> 0 -> py_div a b = inr (a / b).
Proof.
  intros Hb. unfold py_div.
  destruct (Req_dec_T b 0) as [Hz | _]; [contradiction | reflexivity].
Qed.

Lemma py_max_Rmax (a b : R) : py_max a b = Rmax a b.
Proof.
  unfold py_max, Rmax.
  destruct (Rgt_dec b a), (Rle_dec a b); try reflexivity; lra.
Qed.

Lemma py_min_Rmin (a b : R) : py_min a b = Rmin a b.
Proof.
  unfold py_min, Rmin.
  destruct (Rlt_dec b a), (Rle_dec a b); try reflexivity; lra.
Qed.

(** ** [grow] *)

Lemma grow_returns (d : R) (p : Player) :
  0 <= mass p + d -> grow d p = Ok tt (grown d p).
Proof.
  intros Hm. unfold grow, bind, modify, get_self, get, lift. cbn.
  rewrite (math_sqrt_nonneg _ Hm). cbn.
  rewrite py_max_Rmax. reflexivity.
Qed.

Lemma grow_raises (d : R) (p : Player) :
  mass p + d < 0 ->
  grow d p = Raised ValueError (set_mass (mass p + d) p).
Proof.
  intros Hm. unfold grow, bind, modify, get_self, get, lift. cbn.
  rewrite (math_sqrt_negative _ Hm). reflexivity.
Qed.

Lemma sum_sqr_nonneg (a b : R) : 0 <= a ^ 2 + b ^ 2.
Proof. nra. Qed.

(** ** [eat] *)

Lemma eat_unfold (f : Food) (p : Player) :
  eat f p =
  if Rlt_dec (center_distance p f) (radius p)
  then bind (grow (radius f ^ 2)) (fun _ => ret true) p
  else Ok false p.
Proof.
  unfold eat, bind at 1 2, get_self, get, lift.
  rewrite (math_sqrt_nonneg _ (sum_sqr_nonneg _ _)).
  fold (center_distance p f).
  destruct (Rlt_dec (center_distance p f) (radius p)); reflexivity.
Qed.

Lemma eat_reach (f : Food) (p : Player) :
  center_distance p f < radius p ->
  0 <= mass p + radius f ^ 2 ->
  eat f p = Ok true (grown (radius f ^ 2) p).
Proof.
  intros Hd Hm. rewrite eat_unfold.
  destruct (Rlt_dec (center_distance p f) (radius p)); [| contradiction].
  unfold bind. rewrite (grow_returns _ _ Hm). reflexivity.
Qed.

Lemma eat_miss (f : Food) (p : Player) :
  ~ center_distance p f < radius p ->
  eat f p = Ok false p.
Proof.
  intros Hd. rewrite eat_unfold.
  destruct (Rlt_dec (center_distance p f) (radius p)); [contradiction | reflexivity].
Qed.

Lemma eat_false_inv (f : Food) (p p' : Player) :
  eat f p = Ok false p' ->
  p' = p /\ ~ center_distance p f < radius p.
Proof.
  rewrite eat_unfold.
  destruct (Rlt_dec (center_distance p f) (radius p)) as [Hd | Hd].
  - unfold bind. destruct (grow (radius f ^ 2) p); discriminate.
  - intros H. injection H as <-. split; [reflexivity | exact Hd].
Qed.

(** C1. On a player of non-negative mass, [eat] returns; it returns
    [True] exactly when the distance between the two centres is below the
    player's radius, whatever the radius of the food; the mass gains the
    square of the food's radius when it returns [True] and is unchanged
    when it returns [False]. *)
Theorem eat_spec (p : Player) (f : Food) (Hmass : 0 <= mass p) :
  exists (b : bool) (p' : Player),
    eat f p = Ok b p' /\
    (b = true <-> center_distance p f < radius p) /\
    (b = true -> mass p' = mass p + radius f ^ 2) /\
    (b = false -> mass p' = mass p) /\
    (forall f2 : Food, x f2 = x f -> y f2 = y f ->
       exists p2 : Player, eat f2 p = Ok b p2).
Proof.
  destruct (Rlt_dec (center_distance p f) (radius p)) as [Hd | Hd].
  - exists true, (grown (radius f ^ 2) p).
    assert (Hm : forall g : Food, 0 <= mass p + radius g ^ 2).
    { intros g. pose proof (pow2_ge_0 (radius g)). lra. }
    repeat split; auto; try discriminate.
    + apply eat_reach; auto.
    + intros f2 Hx Hy. exists (grown (radius f2 ^ 2) p).
      apply eat_reach; auto.
      unfold center_distance in *. rewrite Hx, Hy. exact Hd.
  - exists false, p.
    repeat split; auto; try discriminate; try contradiction.
    + apply eat_miss; exact Hd.
    + intros f2 Hx Hy. exists p. apply eat_miss.
      unfold center_distance in *. rewrite Hx, Hy. exact Hd.
Qed.

Lemma eat_spec_witness :
  0 <= mass player0 /\
  exists (b : bool) (p' : Player),
    eat (food_at 5 0) player0 = Ok b p' /\
    (b = true <-> center_distance player0 (food_at 5 0) < radius player0) /\
    (b = true -> mass p' = mass player0 + radius (food_at 5 0) ^ 2) /\
    (b = false -> mass p' = mass player0) /\
    (forall f2 : Food, x f2 = x (food_at 5 0) -> y f2 = y (food_at 5 0) ->
       exists p2 : Player, eat f2 player0 = Ok b p2).
Proof.
  assert (H : 0 <= mass player0) by (settings; lra).
  split; [exact H | exact (eat_spec player0 (food_at 5 0) H)].
Defined.

(** ** Square roots of given numbers *)

Lemma sqrt_lt_sq (a b : R) : 0 <= a -> 0 < b -> a < b ^ 2 -> sqrt a < b.
Proof.
  intros Ha Hb Hab.
  replace b with (sqrt (b ^ 2)) by (apply sqrt_pow2; lra).
  apply sqrt_lt_1; nra.
Qed.

Lemma sqrt_gt_sq (a b : R) : 0 <= b -> b ^ 2 < a -> b < sqrt a.
Proof.
  intros Hb Hab.
  replace b with (sqrt (b ^ 2)) at 1 by (apply sqrt_pow2; lra).
  apply sqrt_lt_1; nra.
Qed.

Lemma sqrt_ge_sq (a b : R) : 0 <= b -> b ^ 2 <= a -> b <= sqrt a.
Proof.
  intros Hb Hab.
  replace b with (sqrt (b ^ 2)) at 1 by (apply sqrt_pow2; lra).
  apply sqrt_le_1; nra.
Qed.

Lemma sqrt_le_sq (a b : R) : 0 <= a -> 0 <= b -> a <= b ^ 2 -> sqrt a <= b.
Proof.
  intros Ha Hb Hab.
  replace b with (sqrt (b ^ 2)) by (apply sqrt_pow2; lra).
  apply sqrt_le_1; nra.
Qed.

(** The scenario of the food at (5, 0): eaten, and the mass is 425. *)
Example eat_food_at_5 :
  eat (food_at 5 0) player0 = Ok true (grown 25 player0) /\
  mass (grown 25 player0) = 425.
Proof.
  split.
  - replace 25 with (radius (food_at 5 0) ^ 2) by (settings; lra).
    apply eat_reach.
    + settings. apply sqrt_lt_sq; lra.
    + settings. lra.
  - unfold grown. settings. lra.
Qed.

(** C10. [eat] leaves the food as it was in every outcome, and a call that
    returns [False] leaves the player as it was; it returns [False], with
    both objects unchanged, whenever the distance is not below the
    radius. *)
Theorem eat_frame (p : Player) (f : Food) :
  snd (final_state (eat_call (p, f))) = f /\
  (forall s : Player * Food, eat_call (p, f) = Ok false s -> s = (p, f)) /\
  (~ center_distance p f < radius p -> eat_call (p, f) = Ok false (p, f)).
Proof.
  unfold eat_call, bind, get, zoom. cbn [fst snd].
  split; [| split].
  - destruct (eat f p); reflexivity.
  - intros s Hs. destruct (eat f p) as [b p' | e p'] eqn:He; [| discriminate].
    injection Hs as Hb <-. subst b.
    apply eat_false_inv in He. destruct He as [-> _]. reflexivity.
  - intros Hd. rewrite (eat_miss _ _ Hd). reflexivity.
Qed.

Lemma eat_frame_witness :
  eat_call (player0, food_at 30 0) = Ok false (player0, food_at 30 0).
Proof.
  apply (eat_frame player0 (food_at 30 0)).
  settings. intros H.
  assert (30 <= sqrt ((0 - 30) ^ 2 + (0 - 0) ^ 2)) by (apply sqrt_ge_sq; lra).
  lra.
Defined.

(** ** [grow] on non-negative and on negative increases *)

Lemma grow_final_mass (d : R) (p : Player) :
  mass (final_state (grow d p)) = mass p + d.
Proof.
  destruct (Rlt_dec (mass p + d) 0) as [Hneg | Hpos].
  - rewrite (grow_raises _ _ Hneg). reflexivity.
  - rewrite grow_returns by lra. reflexivity.
Qed.

(** C6, as stated, fails: [grow(-25)] on the initial player leaves a mass
    of 375, not 400. *)
Lemma negative_grow_shrinks :
  -25 < 0 /\ mass (final_state (grow (-25) player0)) <> mass player0.
Proof.
  split; [lra |].
  rewrite grow_final_mass. lra.
Qed.

(** C6, amended. [grow] has no guard on the sign of its argument: for a
    negative [d] the mass becomes [mass + d], strictly less than before;
    when that is non-negative the call returns and the radius becomes
    [max(sqrt(mass + d), MIN_PLAYER_RADIUS)], and when it is negative
    [math.sqrt] raises [ValueError] after the mass was assigned. *)
Theorem grow_negative (p : Player) (d : R) (Hd : d < 0) :
  mass (final_state (grow d p)) = mass p + d /\
  mass (final_state (grow d p)) < mass p /\
  (0 <= mass p + d ->
     grow d p = Ok tt (grown d p) /\
     radius (grown d p) = radius_of_mass (mass p + d)) /\
  (mass p + d < 0 ->
     grow d p = Raised ValueError (set_mass (mass p + d) p)).
Proof.
  rewrite grow_final_mass.
  repeat split.
  - lra.
  - apply grow_returns; assumption.
  - apply grow_raises; assumption.
Qed.

Lemma grow_negative_witness :
  mass (final_state (grow (-25) player0)) = mass player0 + -25 /\
  mass (final_state (grow (-25) player0)) < mass player0 /\
  grow (-25) player0 = Ok tt (grown (-25) player0) /\
  radius (grown (-25) player0) = radius_of_mass (mass player0 + -25) /\
  grow (-500) player0 = Raised ValueError (set_mass (mass player0 + -500) player0).
Proof.
  assert (H25 : -25 < 0) by lra.
  assert (H500 : -500 < 0) by lra.
  destruct (grow_negative player0 (-25) H25) as (Hm & Hlt & Hret & _).
  destruct (grow_negative player0 (-500) H500) as (_ & _ & _ & Hraise).
  destruct Hret as [Hok Hrad]; [settings; lra |].
  repeat split; try assumption.
  apply Hraise. settings; lra.
Defined.

(** ** [move] *)

Lemma move_speed_returns (p : Player) :
  radius p <> 0 -> move_speed p = Ok (speed_of_radius (radius p)) p.
Proof.
  intros Hr. unfold move_speed, bind, get_self, get, lift.
  rewrite (py_div_nonzero _ _ Hr). rewrite py_max_Rmax. reflexivity.
Qed.

Lemma move_speed_raises (p : Player) :
  radius p = 0 -> move_speed p = Raised ZeroDivisionError p.
Proof.
  intros Hr. unfold move_speed, bind, get_self, get, lift, py_div.
  destruct (Req_dec_T (radius p) 0); [reflexivity | contradiction].
Qed.

Lemma move_near (p : Player) :
  ~ target_distance p > 1 -> move p = Ok tt p.
Proof.
  intros Hd. unfold move, bind at 1 2, get_self, get, lift.
  rewrite (math_sqrt_nonneg _ (sum_sqr_nonneg _ _)).
  fold (target_distance p).
  destruct (Rgt_dec (target_distance p) 1); [contradiction | reflexivity].
Qed.

Lemma move_far (p : Player) :
  target_distance p > 1 -> radius p <> 0 -> move p = Ok tt (moved p).
Proof.
  intros Hd Hr. unfold move, bind at 1 2, get_self, get, lift.
  rewrite (math_sqrt_nonneg _ (sum_sqr_nonneg _ _)).
  fold (target_distance p).
  destruct (Rgt_dec (target_distance p) 1); [| contradiction].
  unfold bind at 1. rewrite (move_speed_returns _ Hr).
  assert (Hnz : target_distance p <> 0) by lra.
  unfold bind, lift, modify. rewrite !(py_div_nonzero _ _ Hnz).
  rewrite !py_max_Rmax, !py_min_Rmin.
  reflexivity.
Qed.

Lemma move_far_zero_radius (p : Player) :
  target_distance p > 1 -> radius p = 0 ->
  move p = Raised ZeroDivisionError p.
Proof.
  intros Hd Hr. unfold move, bind at 1 2, get_self, get, lift.
  rewrite (math_sqrt_nonneg _ (sum_sqr_nonneg _ _)).
  fold (target_distance p).
  destruct (Rgt_dec (target_distance p) 1); [| contradiction].
  unfold bind at 1. rewrite (move_speed_raises _ Hr). reflexivity.
Qed.

Lemma clamp_bounds (lo hi v : R) :
  lo <= hi -> lo <= Rmax lo (Rmin hi v) <= hi.
Proof.
  intros Hle. unfold Rmax, Rmin.
  destruct (Rle_dec hi v); destruct (Rle_dec lo _); lra.
Qed.

(** C3, as stated, fails on two kinds of states.  A player that grew while
    resting against the wall and whose target is within one unit is not
    moved and not clamped: it stays at 980, beyond [1000 - sqrt 425].  A
    player whose radius exceeds the half width is clamped to
    [-1000 + radius], and no position can satisfy the bound. *)
Lemma move_outside_bounds :
  (move player_at_wall = Ok tt player_at_wall /\
   ~ disc_in_world player_at_wall) /\
  (move player_huge = Ok tt (moved player_huge) /\
   ~ disc_in_world (moved player_huge)).
Proof.
  split; split.
  - apply move_near. unfold player_at_wall. settings.
    replace ((980 - 980) ^ 2 + (0 - 0) ^ 2) with 0 by lra.
    rewrite sqrt_0. lra.
  - unfold disc_in_world, player_at_wall. settings. intros [Hx _].
    assert (20 < sqrt 425) by (apply sqrt_gt_sq; lra).
    rewrite Rabs_pos_eq in Hx by lra. lra.
  - apply move_far.
    + unfold player_huge. settings.
      assert (100 <= sqrt ((100 - 0) ^ 2 + (0 - 0) ^ 2))
        by (apply sqrt_ge_sq; lra).
      lra.
    + unfold player_huge. settings. lra.
  - unfold disc_in_world, moved, player_huge. settings. intros [Hx _].
    match type of Hx with Rabs ?v <= _ => pose proof (Rabs_pos v) end.
    lra.
Qed.

(** C3, amended. For a player whose radius is positive and at most the
    half width and half height of the world, and for any target further
    than one unit from it, [move] returns, keeps the radius, and leaves a
    position with [|x| <= WORLD_WIDTH/2 - radius] and
    [|y| <= WORLD_HEIGHT/2 - radius]. *)
Theorem move_clamped (p0 : Player) (tx ty : R) :
  let p := set_target_y ty (set_target_x tx p0) in
  0 < radius p ->
  radius p <= WORLD_WIDTH / 2 ->
  radius p <= WORLD_HEIGHT / 2 ->
  target_distance p > 1 ->
  exists p' : Player,
    move p = Ok tt p' /\
    radius p' = radius p /\
    disc_in_world p'.
Proof.
  intros p Hpos Hw Hh Hd.
  exists (moved p).
  split; [apply move_far; lra |].
  split; [reflexivity |].
  unfold disc_in_world, moved, set_obj. cbn [x y radius obj].
  split; apply Rabs_le.
  - match goal with |- _ <= Rmax ?lo (Rmin ?hi ?v) <= _ =>
      pose proof (clamp_bounds lo hi v) end.
    lra.
  - match goal with |- _ <= Rmax ?lo (Rmin ?hi ?v) <= _ =>
      pose proof (clamp_bounds lo hi v) end.
    lra.
Qed.

Lemma move_clamped_witness :
  exists p' : Player,
    move (set_target_y (-5000000) (set_target_x 1000000 player0)) = Ok tt p' /\
    radius p' = radius (set_target_y (-5000000) (set_target_x 1000000 player0)) /\
    disc_in_world p'.
Proof.
  apply (move_clamped player0 1000000 (-5000000)).
  - settings. lra.
  - settings. lra.
  - settings. lra.
  - settings.
    assert (1000000 <= sqrt ((1000000 - 0) ^ 2 + (-5000000 - 0) ^ 2))
      by (apply sqrt_ge_sq; lra).
    lra.
Defined.

(** ** The speed of [move] *)

Lemma speed_of_radius_floor (r : R) : 0.1 <= speed_of_radius r.
Proof. unfold speed_of_radius. apply Rmax_r. Qed.

Lemma speed_of_radius_large (r : R) :
  INITIAL_PLAYER_RADIUS <= r -> speed_of_radius r = 0.1.
Proof.
  intros Hr. unfold speed_of_radius, PLAYER_SPEED_FACTOR, INITIAL_PLAYER_RADIUS in *.
  apply Rmax_right.
  assert (Hinv : 0 < / r) by (apply Rinv_0_lt_compat; lra).
  assert (Hone : r * / r = 1) by (apply Rinv_r; lra).
  unfold Rdiv. nra.
Qed.

Lemma speed_of_radius_small (r : R) :
  0 < r -> r < INITIAL_PLAYER_RADIUS ->
  speed_of_radius r = PLAYER_SPEED_FACTOR * (INITIAL_PLAYER_RADIUS / r).
Proof.
  intros Hpos Hr. unfold speed_of_radius, PLAYER_SPEED_FACTOR, INITIAL_PLAYER_RADIUS in *.
  apply Rmax_left.
  assert (Hinv : 0 < / r) by (apply Rinv_0_lt_compat; lra).
  assert (Hone : r * / r = 1) by (apply Rinv_r; lra).
  unfold Rdiv. nra.
Qed.

(** C7, as stated, fails: the initial player (radius 20) and the same
    player with radius 40 both get the speed 0.1, so the larger one is not
    strictly slower. *)
Lemma speed_not_strictly_lower :
  radius player0 < radius (set_radius 40 player0) /\
  exists s1 s2 : R,
    move_speed player0 = Ok s1 player0 /\
    move_speed (set_radius 40 player0) = Ok s2 (set_radius 40 player0) /\
    ~ s2 < s1.
Proof.
  split; [settings; lra |].
  exists (speed_of_radius 20), (speed_of_radius 40).
  split; [| split].
  - apply (move_speed_returns player0). settings. lra.
  - apply (move_speed_returns (set_radius 40 player0)). cbn. lra.
  - rewrite !speed_of_radius_large by (unfold INITIAL_PLAYER_RADIUS; lra). lra.
Qed.

(** C7, amended. For two players of positive radii [r1 < r2], [move]
    computes the speeds
    [max(PLAYER_SPEED_FACTOR * (INITIAL_PLAYER_RADIUS / r), 0.1)]; the
    speed of the larger is never above the speed of the smaller, and is
    strictly below it whenever the speed of the smaller is above the floor
    0.1. *)
Theorem move_speed_spec (p1 p2 : Player)
    (Hpos : 0 < radius p1) (Hlt : radius p1 < radius p2) :
  exists s1 s2 : R,
    move_speed p1 = Ok s1 p1 /\
    move_speed p2 = Ok s2 p2 /\
    s1 = Rmax (PLAYER_SPEED_FACTOR * (INITIAL_PLAYER_RADIUS / radius p1)) 0.1 /\
    s2 = Rmax (PLAYER_SPEED_FACTOR * (INITIAL_PLAYER_RADIUS / radius p2)) 0.1 /\
    s2 <= s1 /\
    (0.1 < s1 -> s2 < s1).
Proof.
  exists (speed_of_radius (radius p1)), (speed_of_radius (radius p2)).
  split; [apply move_speed_returns; lra |].
  split; [apply move_speed_returns; lra |].
  split; [reflexivity |]. split; [reflexivity |].
  assert (Hinv : INITIAL_PLAYER_RADIUS / radius p2 < INITIAL_PLAYER_RADIUS / radius p1).
  { unfold INITIAL_PLAYER_RADIUS, Rdiv.
    apply Rmult_lt_compat_l; [lra |].
    apply Rinv_lt_contravar; [nra | lra]. }
  unfold speed_of_radius, PLAYER_SPEED_FACTOR in *.
  split.
  - apply Rmax_lub.
    + eapply Rle_trans; [| apply Rmax_l]. lra.
    + apply Rmax_r.
  - intros Habove.
    apply Rmax_lub_lt; [| exact Habove].
    eapply Rlt_le_trans; [| apply Rmax_l]. lra.
Qed.

Lemma move_speed_spec_witness :
  exists s1 s2 : R,
    move_speed (set_radius 10 player0) = Ok s1 (set_radius 10 player0) /\
    move_speed player0 = Ok s2 player0 /\
    s1 = Rmax (PLAYER_SPEED_FACTOR *
               (INITIAL_PLAYER_RADIUS / radius (set_radius 10 player0))) 0.1 /\
    s2 = Rmax (PLAYER_SPEED_FACTOR * (INITIAL_PLAYER_RADIUS / radius player0)) 0.1 /\
    s2 <= s1 /\
    (0.1 < s1 -> s2 < s1).
Proof.
  apply (move_speed_spec (set_radius 10 player0) player0); cbn; settings; lra.
Defined.

(** ** Creating foods *)

Lemma Food_init_returns (g : RandomState) :
  Food_init g = Ok (food_drawn g) (advance 5 g).
Proof. reflexivity. Qed.

Lemma skip_foods_advance (k : nat) (g : RandomState) :
  skip_foods k (advance 5 g) = advance 5 (skip_foods k g).
Proof.
  induction k as [| k IH]; [reflexivity |].
  change (advance 5 (skip_foods k (advance 5 g))
          = advance 5 (advance 5 (skip_foods k g))).
  rewrite IH. reflexivity.
Qed.

Lemma fresh_foods_snoc (k : nat) (g : RandomState) :
  fresh_foods k g ++ [food_drawn (skip_foods k g)] = fresh_foods (S k) g.
Proof.
  revert g. induction k as [| k IH]; intros g; [reflexivity |].
  change (fresh_foods (S (S k)) g)
    with (food_drawn g :: fresh_foods (S k) (advance 5 g)).
  rewrite <- (IH (advance 5 g)).
  change (skip_foods (S k) g) with (advance 5 (skip_foods k g)).
  rewrite <- skip_foods_advance. reflexivity.
Qed.

Lemma fresh_foods_length (k : nat) (g : RandomState) :
  length (fresh_foods k g) = k.
Proof.
  revert g. induction k as [| k IH]; intros g; [reflexivity |].
  cbn [fresh_foods length]. rewrite IH. reflexivity.
Qed.

Lemma spawn_food_from_returns (count : nat) (acc : list Food) (g : RandomState) :
  spawn_food_from count acc g
  = Ok (acc ++ fresh_foods count g) (skip_foods count g).
Proof.
  revert acc g. induction count as [| n IH]; intros acc g.
  - cbn. rewrite app_nil_r. reflexivity.
  - cbn [spawn_food_from]. unfold bind. rewrite Food_init_returns.
    rewrite IH. rewrite <- app_assoc. cbn [app fresh_foods].
    rewrite skip_foods_advance. reflexivity.
Qed.

Lemma spawn_food_returns (count : nat) (g : RandomState) :
  spawn_food count g = Ok (fresh_foods count g) (skip_foods count g).
Proof. unfold spawn_food. apply spawn_food_from_returns. Qed.

Lemma uniform_world_range (u : unit_sample) (h : R) :
  0 <= h -> Rabs (- h + (h - - h) * sample u) <= h.
Proof.
  intros Hh. destruct u as [v [Hlo Hhi]]. cbn [sample].
  apply Rabs_le. split; nra.
Qed.

Lemma food_drawn_center (g : RandomState) : center_in_world (food_drawn g).
Proof.
  unfold center_in_world, food_drawn, sample_at. cbn [x y].
  split; replace (- WORLD_WIDTH / 2) with (- (WORLD_WIDTH / 2)) by (unfold WORLD_WIDTH; lra);
    replace (- WORLD_HEIGHT / 2) with (- (WORLD_HEIGHT / 2)) by (unfold WORLD_HEIGHT; lra);
    apply uniform_world_range; unfold WORLD_WIDTH, WORLD_HEIGHT; lra.
Qed.

(** ** The annotation request *)

Example strip_example :
  remove_char double_quote (strip (String (ascii_of_nat 32)
    (String double_quote (String (ascii_of_nat 10) EmptyString ++ "a b"
      ++ String double_quote (String (ascii_of_nat 9) EmptyString)))))
  = (String (ascii_of_nat 10) EmptyString ++ "a b")%string.
Proof. reflexivity. Qed.

(** C9, as stated, fails: on the same state a failed request sets the
    timer to 2 and a successful one sets it to [DESCRIPTION_DURATION],
    which is 5. *)
Lemma failure_timer_is_shorter :
  description_timer (player (final_state (on_key_g true Failure game0))) = 2 /\
  description_timer (player (final_state (on_key_g true (Reply "a cell") game0)))
    = DESCRIPTION_DURATION /\
  description_timer (player (final_state (on_key_g true Failure game0)))
    <> description_timer
         (player (final_state (on_key_g true (Reply "a cell") game0))).
Proof.
  assert (Hf : description_timer
                 (player (final_state (on_key_g true Failure game0))) = 2)
    by reflexivity.
  assert (Hs : description_timer
                 (player (final_state (on_key_g true (Reply "a cell") game0)))
               = DESCRIPTION_DURATION)
    by reflexivity.
  split; [exact Hf |]. split; [exact Hs |].
  rewrite Hf, Hs. unfold DESCRIPTION_DURATION. lra.
Qed.

(** C9, amended. When no request is in progress and the service is
    available, a failed request returns normally: the annotation text is
    the placeholder, the timer is set to 2, shorter than the
    [DESCRIPTION_DURATION] that a successful request sets, the request
    flag is cleared, and the mass, the position, the radius and the food
    list are unchanged. *)
Theorem annotation_failure_handled (g : Game) (text : string)
    (Hidle : gemini_request_in_progress g = false) :
  (exists g' : Game,
     on_key_g true Failure g = Ok tt g' /\
     gemini_description (player g') = "Gemini error :("%string /\
     description_timer (player g') = 2 /\
     gemini_request_in_progress g' = false /\
     obj (player g') = obj (player g) /\
     mass (player g') = mass (player g) /\
     food_list g' = food_list g) /\
  (exists g' : Game,
     on_key_g true (Reply text) g = Ok tt g' /\
     gemini_description (player g') = remove_char double_quote (strip text) /\
     description_timer (player g') = DESCRIPTION_DURATION /\
     gemini_request_in_progress g' = false) /\
  2 < DESCRIPTION_DURATION.
Proof.
  split; [| split].
  - eexists. split.
    + unfold on_key_g, bind at 1, get_game, get. rewrite Hidle. cbn. reflexivity.
    + cbn. repeat split; reflexivity.
  - eexists. split.
    + unfold on_key_g, bind at 1, get_game, get. rewrite Hidle. cbn. reflexivity.
    + cbn. repeat split; reflexivity.
  - unfold DESCRIPTION_DURATION. lra.
Qed.

Lemma annotation_failure_handled_witness :
  exists g' : Game,
    on_key_g true Failure game0 = Ok tt g' /\
    gemini_description (player g') = "Gemini error :("%string /\
    description_timer (player g') = 2 /\
    gemini_request_in_progress g' = false /\
    obj (player g') = obj (player game0) /\
    mass (player g') = mass (player game0) /\
    food_list g' = food_list game0.
Proof.
  apply (annotation_failure_handled game0 "a cell"). reflexivity.
Defined.

(** ** The loop that calls [eat] *)

Lemma in_reach_true (p : Player) (f : Food) :
  in_reach p f = true <-> center_distance p f < radius p.
Proof.
  unfold in_reach. destruct (Rlt_dec _ _); split; intros; try discriminate;
    try contradiction; auto.
Qed.

Lemma in_reach_false (p : Player) (f : Food) :
  in_reach p f = false <-> ~ center_distance p f < radius p.
Proof.
  unfold in_reach. destruct (Rlt_dec _ _); split; intros; try discriminate;
    try contradiction; auto.
Qed.

Lemma grown_mass_nonneg (d : R) (p : Player) :
  0 <= mass p -> 0 <= d -> 0 <= mass (grown d p).
Proof. intros Hm Hd. cbn [grown mass]. lra. Qed.

(** The loop returns its closed form when the mass is non-negative. *)
Lemma eat_each_returns (foods : list Food) :
  forall (i : nat) (acc : list nat) (p : Player),
    0 <= mass p ->
    eat_each i foods acc p
    = Ok (acc ++ eaten_indices i foods p) (fed foods p).
Proof.
  induction foods as [| f rest IH]; intros i acc p Hm.
  - cbn. rewrite app_nil_r. reflexivity.
  - cbn [eat_each eaten_indices fed]. unfold bind.
    pose proof (pow2_ge_0 (radius f)) as Hsq.
    destruct (in_reach p f) eqn:Hreach.
    + apply in_reach_true in Hreach.
      rewrite (eat_reach f p Hreach) by lra.
      rewrite IH by (apply grown_mass_nonneg; assumption).
      rewrite <- app_assoc. reflexivity.
    + apply in_reach_false in Hreach.
      rewrite (eat_miss f p Hreach).
      rewrite IH by assumption. reflexivity.
Qed.

(** Whatever the mass, a loop that returns has computed the closed form. *)
Lemma eat_each_inv (foods : list Food) :
  forall (i : nat) (acc eaten : list nat) (p p' : Player),
    eat_each i foods acc p = Ok eaten p' ->
    eaten = acc ++ eaten_indices i foods p /\ p' = fed foods p.
Proof.
  induction foods as [| f rest IH]; intros i acc eaten p p' H.
  - cbn in H. injection H as <- <-. rewrite app_nil_r. split; reflexivity.
  - cbn [eat_each eaten_indices fed] in *. unfold bind in H.
    rewrite eat_unfold in H. unfold in_reach.
    destruct (Rlt_dec (center_distance p f) (radius p)) as [Hd | Hd].
    + unfold bind in H.
      destruct (Rlt_dec (mass p + radius f ^ 2) 0) as [Hneg | Hpos].
      * rewrite (grow_raises _ _ Hneg) in H. discriminate.
      * rewrite grow_returns in H by lra. cbn in H.
        apply IH in H. rewrite <- app_assoc in H. exact H.
    + apply IH in H. exact H.
Qed.

Lemma eaten_uneaten_length (foods : list Food) :
  forall (i : nat) (p : Player),
    (length (uneaten foods p) + length (eaten_indices i foods p))%nat
    = length foods.
Proof.
  induction foods as [| f rest IH]; intros i p; [reflexivity |].
  cbn [uneaten eaten_indices].
  destruct (in_reach p f); cbn [length];
    [pose proof (IH (S i) (grown (radius f ^ 2) p)) | pose proof (IH (S i) p)];
    lia.
Qed.

(** The eaten indices grow strictly and start at [i] or later. *)
Lemma eaten_indices_sorted (foods : list Food) :
  forall (i : nat) (p : Player),
    Forall (fun j => i <= j)%nat (eaten_indices i foods p) /\
    StronglySorted lt (eaten_indices i foods p).
Proof.
  induction foods as [| f rest IH]; intros i p.
  - split; constructor.
  - cbn [eaten_indices]. destruct (in_reach p f).
    + destruct (IH (S i) (grown (radius f ^ 2) p)) as [Hlow Hsorted].
      split.
      * constructor; [lia |].
        eapply Forall_impl; [| exact Hlow]. cbn. intros; lia.
      * constructor; [exact Hsorted |].
        eapply Forall_impl; [| exact Hlow]. cbn. intros; lia.
    + destruct (IH (S i) p) as [Hlow Hsorted].
      split; [| exact Hsorted].
      eapply Forall_impl; [| exact Hlow]. cbn. intros; lia.
Qed.

(** ** [sorted(..., reverse=True)] on an increasing list *)

Lemma insert_desc_below (n : nat) (l : list nat) :
  Forall (fun m => n < m)%nat l -> insert_desc n l = l ++ [n].
Proof.
  induction 1 as [| m t Hm _ IH]; [reflexivity |].
  cbn [insert_desc app].
  destruct (Nat.leb_spec m n); [lia |].
  rewrite IH. reflexivity.
Qed.

Lemma sorted_reverse_increasing (l : list nat) :
  StronglySorted lt l -> sorted_reverse l = rev l.
Proof.
  induction 1 as [| n t _ IH Hall]; [reflexivity |].
  cbn [sorted_reverse rev]. rewrite IH.
  apply insert_desc_below.
  apply Forall_rev. exact Hall.
Qed.

(** ** Popping the eaten foods and appending new ones *)

Lemma list_pop_in_range {A : Type} (l : list A) :
  forall i : nat, (i < length l)%nat -> list_pop i l = inr (drop_index i l).
Proof.
  induction l as [| a t IH]; intros i Hi; cbn [length] in Hi; [lia |].
  destruct i as [| i]; [reflexivity |].
  cbn [list_pop drop_index]. rewrite IH by lia. reflexivity.
Qed.

Lemma list_pop_past_end {A : Type} (l : list A) :
  forall i : nat, (length l <= i)%nat -> list_pop i l = inl IndexError.
Proof.
  induction l as [| a t IH]; intros i Hi; cbn [length] in Hi; [reflexivity |].
  destruct i as [| i]; [lia |].
  cbn [list_pop]. rewrite IH by lia. reflexivity.
Qed.

Lemma drop_index_middle {A : Type} (pre : list A) (a : A) (t : list A) :
  drop_index (length pre) (pre ++ a :: t) = pre ++ t.
Proof.
  induction pre as [| b pre IH]; cbn; [reflexivity |].
  rewrite IH. reflexivity.
Qed.

Lemma replace_eaten_app (l1 l2 : list nat) (g : Game) :
  replace_eaten (l1 ++ l2) g
  = bind (replace_eaten l1) (fun _ => replace_eaten l2) g.
Proof.
  revert g. induction l1 as [| i l1 IH]; intros g; [reflexivity |].
  cbn [app replace_eaten]. unfold bind, get_game, get, lift, modify.
  destruct (list_pop i (food_list g)) as [e | remaining]; [reflexivity |].
  destruct (on_random Food_init (set_food_list remaining g)) as [food g1 | e g1];
    [| reflexivity].
  rewrite IH. reflexivity.
Qed.

Lemma replenished_zero (g : Game) : replenished (food_list g) 0 g = g.
Proof.
  unfold replenished. cbn. rewrite app_nil_r. destruct g. reflexivity.
Qed.

Lemma replace_rev_eaten (foods : list Food) :
  forall (p : Player) (pre : list Food) (g : Game),
    food_list g = pre ++ foods ->
    replace_eaten (rev (eaten_indices (length pre) foods p)) g
    = Ok tt (replenished (pre ++ uneaten foods p)
               (length (eaten_indices (length pre) foods p)) g).
Proof.
  induction foods as [| f rest IH]; intros p pre g Hl.
  - cbn. rewrite <- Hl. rewrite replenished_zero. reflexivity.
  - cbn [eaten_indices uneaten].
    assert (Hl' : food_list g = (pre ++ [f]) ++ rest)
      by (rewrite Hl, <- app_assoc; reflexivity).
    assert (Hlen : length (pre ++ [f]) = S (length pre))
      by (rewrite length_app; cbn; lia).
    destruct (in_reach p f).
    + cbn [rev length]. rewrite replace_eaten_app. unfold bind at 1.
      specialize (IH (grown (radius f ^ 2) p) (pre ++ [f]) g Hl').
      rewrite Hlen in IH. rewrite IH.
      set (k := length (eaten_indices (S (length pre)) rest (grown (radius f ^ 2) p))).
      set (U := uneaten rest (grown (radius f ^ 2) p)).
      cbn [replace_eaten]. unfold bind, get_game, get, lift, modify.
      unfold replenished at 1. cbn [food_list set_food_list set_random_state].
      rewrite <- !app_assoc. cbn [app].
      rewrite list_pop_in_range by (rewrite length_app; cbn; lia).
      rewrite drop_index_middle.
      unfold on_random, zoom. cbn [random_state replenished set_random_state set_food_list].
      rewrite Food_init_returns. unfold ret.
      f_equal. unfold replenished.
      cbn [food_list set_food_list set_random_state random_state running player
           camera_x camera_y gemini_request_in_progress gemini_description_text].
      rewrite <- !app_assoc. rewrite fresh_foods_snoc. reflexivity.
    + specialize (IH p (pre ++ [f]) g Hl').
      rewrite Hlen in IH. rewrite IH.
      rewrite <- app_assoc. reflexivity.
Qed.

(** ** The consumption pass *)

Lemma resolve_consumption_unfold (g : Game) :
  resolve_consumption g =
  match eat_each 0 (food_list g) [] (player g) with
  | Ok eaten p' =>
      match replace_eaten (sorted_reverse eaten) (set_player p' g) with
      | Ok _ g' => Ok eaten g'
      | Raised e g' => Raised e g'
      end
  | Raised e p' => Raised e (set_player p' g)
  end.
Proof.
  unfold resolve_consumption, bind, get_game, get, on_player, zoom, ret.
  destruct (eat_each 0 (food_list g) [] (player g)); reflexivity.
Qed.

(** After the loop of [eat], the replacement loop never raises. *)
Lemma replace_after_eat (g : Game) (p' : Player) :
  replace_eaten (sorted_reverse (eaten_indices 0 (food_list g) (player g)))
    (set_player p' g)
  = Ok tt (replenished (uneaten (food_list g) (player g))
             (length (eaten_indices 0 (food_list g) (player g)))
             (set_player p' g)).
Proof.
  rewrite sorted_reverse_increasing by apply eaten_indices_sorted.
  apply (replace_rev_eaten (food_list g) (player g) [] (set_player p' g)).
  reflexivity.
Qed.

Lemma resolve_consumption_returns (g : Game) :
  0 <= mass (player g) ->
  resolve_consumption g
  = Ok (eaten_indices 0 (food_list g) (player g))
       (replenished (uneaten (food_list g) (player g))
          (length (eaten_indices 0 (food_list g) (player g)))
          (set_player (fed (food_list g) (player g)) g)).
Proof.
  intros Hm. rewrite resolve_consumption_unfold.
  rewrite (eat_each_returns _ 0%nat [] _ Hm). cbn [app].
  rewrite replace_after_eat. reflexivity.
Qed.

Lemma replenished_length (l : list Food) (k : nat) (g : Game) :
  length (food_list (replenished l k g)) = (length l + k)%nat.
Proof.
  unfold replenished. cbn [food_list set_random_state set_food_list].
  rewrite length_app, fresh_foods_length. reflexivity.
Qed.

(** C2. After the consumption pass the food list has the length it had
    before, whether the pass returns or raises; on a player of
    non-negative mass the pass returns, and the new list is the foods not
    eaten, in their order, followed by one new food per eaten food. *)
Theorem resolve_consumption_population (g : Game) :
  length (food_list (final_state (resolve_consumption g)))
    = length (food_list g) /\
  (0 <= mass (player g) ->
   exists (eaten : list nat) (g' : Game),
     resolve_consumption g = Ok eaten g' /\
     food_list g'
       = uneaten (food_list g) (player g)
         ++ fresh_foods (length eaten) (random_state g) /\
     (length (uneaten (food_list g) (player g)) + length eaten)%nat
       = length (food_list g) /\
     length (food_list g') = length (food_list g)).
Proof.
  split.
  - rewrite resolve_consumption_unfold.
    destruct (eat_each 0 (food_list g) [] (player g)) as [eaten p' | e p'] eqn:He;
      [| reflexivity].
    apply eat_each_inv in He. destruct He as [-> _]. cbn [app].
    rewrite replace_after_eat. cbn [final_state].
    rewrite replenished_length. apply eaten_uneaten_length.
  - intros Hm.
    exists (eaten_indices 0 (food_list g) (player g)).
    eexists. split; [apply resolve_consumption_returns; exact Hm |].
    split; [reflexivity |].
    split; [apply eaten_uneaten_length |].
    rewrite replenished_length. apply eaten_uneaten_length.
Qed.

Lemma resolve_consumption_population_witness :
  exists (eaten : list nat) (g' : Game),
    resolve_consumption game0 = Ok eaten g' /\
    food_list g'
      = uneaten (food_list game0) (player game0)
        ++ fresh_foods (length eaten) (random_state game0) /\
    (length (uneaten (food_list game0) (player game0)) + length eaten)%nat
      = length (food_list game0) /\
    length (food_list g') = length (food_list game0).
Proof.
  apply (resolve_consumption_population game0).
  unfold game0. cbn [player]. settings. lra.
Defined.

(** ** Deciding the reach on given objects *)

Lemma in_reach_by_squares (p : Player) (f : Food) :
  0 < radius p ->
  (x p - x f) ^ 2 + (y p - y f) ^ 2 < radius p ^ 2 ->
  in_reach p f = true.
Proof.
  intros Hr Hsq. apply in_reach_true. unfold center_distance.
  apply sqrt_lt_sq; [apply sum_sqr_nonneg | exact Hr | exact Hsq].
Qed.

Lemma out_of_reach_by_squares (p : Player) (f : Food) :
  0 <= radius p ->
  radius p ^ 2 <= (x p - x f) ^ 2 + (y p - y f) ^ 2 ->
  in_reach p f = false.
Proof.
  intros Hr Hsq. apply in_reach_false. unfold center_distance.
  intros Hlt.
  pose proof (sqrt_ge_sq _ _ Hr Hsq). lra.
Qed.

Lemma reach_player0_near : in_reach player0 food_near = true.
Proof. apply in_reach_by_squares; unfold food_near; settings; lra. Qed.

Lemma reach_player0_edge : in_reach player0 food_edge = false.
Proof. apply out_of_reach_by_squares; unfold food_edge; settings; lra. Qed.

Lemma reach_player0_far : in_reach player0 (food_at 30 0) = false.
Proof. apply out_of_reach_by_squares; settings; lra. Qed.

Lemma reach_grown_edge :
  in_reach (grown (radius food_near ^ 2) player0) food_edge = true.
Proof.
  apply in_reach_true. unfold center_distance, grown, food_near, food_edge.
  settings.
  assert (Hd : sqrt ((0 - 20.3) ^ 2 + (0 - 0) ^ 2) < 20.5)
    by (apply sqrt_lt_sq; lra).
  assert (Hr : 20.5 < sqrt (20 ^ 2 + 5 ^ 2)) by (apply sqrt_gt_sq; lra).
  pose proof (Rmax_l (sqrt (20 ^ 2 + 5 ^ 2)) 5). lra.
Qed.

(** The scenario of the specification: the food at (5, 0) is eaten, the
    mass becomes 425, the food at (30, 0) stays, and one new food is
    appended. *)
Example resolve_consumption_game0 :
  exists g' : Game,
    resolve_consumption game0 = Ok [0%nat] g' /\
    mass (player g') = 425 /\
    food_list g' = [food_at 30 0; food_drawn random_half].
Proof.
  eexists. split.
  - rewrite resolve_consumption_returns by (unfold game0; cbn [player]; settings; lra).
    unfold game0. cbn [food_list player eaten_indices uneaten fed].
    fold food_near. rewrite reach_player0_near.
    assert (Hfar : in_reach (grown (radius food_near ^ 2) player0) (food_at 30 0) = false).
    { apply out_of_reach_by_squares; unfold grown, food_near; settings.
      - pose proof (Rmax_r (sqrt (20 ^ 2 + 5 ^ 2)) 5). lra.
      - assert (Hle : sqrt (20 ^ 2 + 5 ^ 2) <= 21) by (apply sqrt_le_sq; lra).
        assert (Hmax : Rmax (sqrt (20 ^ 2 + 5 ^ 2)) 5 <= 21)
          by (apply Rmax_lub; lra).
        pose proof (Rmax_r (sqrt (20 ^ 2 + 5 ^ 2)) 5). nra. }
    rewrite Hfar. reflexivity.
  - split.
    + unfold replenished, grown, food_near. cbn. settings. lra.
    + reflexivity.
Qed.

(** ** The order of the foods in the pass *)

(** C4, as stated, fails: with the food at (20.3, 0) after the food at
    (5, 0) both are eaten and the mass ends at 450; in the other order the
    first test is made with radius 20, only the food at (5, 0) is eaten
    and the mass ends at 425. *)
Lemma consumption_depends_on_order :
  Permutation [food_near; food_edge] [food_edge; food_near] /\
  exists (e1 e2 : list nat) (g1 g2 : Game),
    resolve_consumption (game_with player0 [food_near; food_edge]) = Ok e1 g1 /\
    resolve_consumption (game_with player0 [food_edge; food_near]) = Ok e2 g2 /\
    mass (player g1) = 450 /\
    mass (player g2) = 425 /\
    foods_at e1 [food_near; food_edge] = [food_near; food_edge] /\
    foods_at e2 [food_edge; food_near] = [food_near].
Proof.
  split; [apply perm_swap |].
  assert (Hm : 0 <= mass player0) by (settings; lra).
  do 4 eexists.
  split; [apply resolve_consumption_returns; exact Hm |].
  split; [apply resolve_consumption_returns; exact Hm |].
  unfold game_with. cbn [food_list player set_food_list set_player
                         eaten_indices uneaten fed].
  rewrite reach_player0_near, reach_grown_edge, reach_player0_edge.
  repeat split.
  - unfold replenished, grown, food_near, food_edge. cbn. settings. lra.
  - unfold replenished, grown, food_near, food_edge. cbn. settings. lra.
Qed.

Lemma radius_of_mass_mono (a b : R) :
  a <= b -> radius_of_mass a <= radius_of_mass b.
Proof.
  intros Hab. unfold radius_of_mass.
  apply Rle_max_compat_r. apply sqrt_le_1_alt. exact Hab.
Qed.

Lemma total_area_nonneg (l : list Food) : 0 <= total_area l.
Proof.
  induction l as [| f rest IH]; cbn [total_area]; [lra |].
  pose proof (pow2_ge_0 (radius f)). lra.
Qed.

Lemma total_area_perm (l l' : list Food) :
  Permutation l l' -> total_area l = total_area l'.
Proof.
  induction 1; cbn [total_area]; lra.
Qed.

Lemma grown_twice (a b : R) (p : Player) :
  grown b (grown a p) = grown (a + b) p.
Proof.
  unfold grown. cbn [x y radius color obj name mass target_x target_y
                     gemini_description description_timer].
  rewrite Rplus_assoc. reflexivity.
Qed.

Lemma fed_by_grown (f : Food) (eaten : list Food) (p : Player) :
  fed_by eaten (grown (radius f ^ 2) p) = fed_by (f :: eaten) p.
Proof.
  destruct eaten as [| f2 rest]; cbn [fed_by total_area].
  - rewrite Rplus_0_r. reflexivity.
  - rewrite grown_twice. reflexivity.
Qed.

Lemma fed_by_perm (l l' : list Food) (p : Player) :
  Permutation l l' -> fed_by l p = fed_by l' p.
Proof.
  intros Hperm. pose proof (total_area_perm _ _ Hperm) as Harea.
  destruct l as [| f rest]; destruct l' as [| f' rest'].
  - reflexivity.
  - apply Permutation_nil in Hperm. discriminate.
  - apply Permutation_sym, Permutation_nil in Hperm. discriminate.
  - unfold fed_by. rewrite Harea. reflexivity.
Qed.

Lemma foods_at_eaten (foods : list Food) :
  forall (p : Player) (pre : list Food),
    foods_at (eaten_indices (length pre) foods p) (pre ++ foods)
    = eaten_foods foods p.
Proof.
  induction foods as [| f rest IH]; intros p pre; [reflexivity |].
  cbn [eaten_indices eaten_foods].
  assert (Hlen : length (pre ++ [f]) = S (length pre))
    by (rewrite length_app; cbn; lia).
  assert (Happ : pre ++ f :: rest = (pre ++ [f]) ++ rest)
    by (rewrite <- app_assoc; reflexivity).
  destruct (in_reach p f).
  - cbn [foods_at].
    rewrite nth_error_app2 by lia. rewrite Nat.sub_diag. cbn [nth_error].
    rewrite Happ, <- Hlen, IH. reflexivity.
  - rewrite Happ, <- Hlen, IH. reflexivity.
Qed.

(** While no food lies between the first radius and the last one, every
    test of the pass gives what it gives on the first player. *)
Section StableReach.

Variable p0 : Player.
Variable Rf : R.

Lemma reach_unchanged (q : Player) (f : Food) :
  between p0 Rf q ->
  center_distance p0 f < radius p0 \/ Rf <= center_distance p0 f ->
  in_reach q f = in_reach p0 f.
Proof.
  intros (Hx & Hy & Hlo & Hhi) Hgap.
  assert (Hdist : center_distance q f = center_distance p0 f)
    by (unfold center_distance; rewrite Hx, Hy; reflexivity).
  destruct Hgap as [Hnear | Hfar].
  - transitivity true; [| symmetry]; apply in_reach_true; lra.
  - transitivity false; [| symmetry]; apply in_reach_false; lra.
Qed.

Lemma fed_stable (l : list Food) :
  forall q : Player,
    between p0 Rf q ->
    0 <= mass q ->
    radius p0 <= radius_of_mass (mass q) ->
    radius_of_mass (mass q + total_area (filter (in_reach p0) l)) <= Rf ->
    gap_free p0 Rf l ->
    eaten_foods l q = filter (in_reach p0) l /\
    fed l q = fed_by (filter (in_reach p0) l) q.
Proof.
  induction l as [| f rest IH]; intros q Hq Hm Hrm Hfin Hgap.
  - split; reflexivity.
  - cbn [eaten_foods fed filter] in *.
    pose proof (pow2_ge_0 (radius f)) as Hsq.
    pose proof (total_area_nonneg (filter (in_reach p0) rest)) as Hrest.
    assert (Hrest_gap : gap_free p0 Rf rest)
      by (intros f' Hin; apply Hgap; right; exact Hin).
    rewrite (reach_unchanged q f Hq (Hgap f (or_introl eq_refl))).
    destruct Hq as (Hx & Hy & Hlo & Hhi).
    destruct (in_reach p0 f); cbn [total_area] in Hfin.
    + destruct (IH (grown (radius f ^ 2) q)) as [He Hf]; try assumption.
      * repeat split; try assumption;
          change (radius (grown (radius f ^ 2) q))
            with (radius_of_mass (mass q + radius f ^ 2)).
        -- eapply Rle_trans; [exact Hrm |]. apply radius_of_mass_mono. lra.
        -- eapply Rle_trans; [| exact Hfin]. apply radius_of_mass_mono. lra.
      * cbn [grown mass]. lra.
      * cbn [grown mass].
        eapply Rle_trans; [exact Hrm |]. apply radius_of_mass_mono. lra.
      * cbn [grown mass]. rewrite Rplus_assoc. exact Hfin.
      * rewrite He, Hf. split; [reflexivity | apply fed_by_grown].
    + destruct (IH q) as [He Hf]; try assumption.
      * repeat split; assumption.
      * split; assumption.
Qed.

End StableReach.

Lemma pass_stable (p : Player) (l : list Food) :
  0 <= mass p ->
  radius p = radius_of_mass (mass p) ->
  gap_free p
    (radius_of_mass (mass p + total_area (filter (in_reach p) l))) l ->
  foods_at (eaten_indices 0 l p) l = filter (in_reach p) l /\
  fed l p = fed_by (filter (in_reach p) l) p.
Proof.
  intros Hm Hr Hgap.
  pose proof (total_area_nonneg (filter (in_reach p) l)) as Harea.
  destruct (fed_stable p
              (radius_of_mass (mass p + total_area (filter (in_reach p) l)))
              l p)
    as [He Hf]; try assumption; try lra.
  - repeat split; try lra.
    rewrite Hr. apply radius_of_mass_mono. lra.
  - split; [| exact Hf].
    rewrite <- He. apply (foods_at_eaten l p []).
Qed.

Lemma filter_perm {A : Type} (keep : A -> bool) (l l' : list A) :
  Permutation l l' -> Permutation (filter keep l) (filter keep l').
Proof.
  induction 1 as [| a l1 l2 _ IH | a b l1 | l1 l2 l3 _ IH1 _ IH2];
    cbn [filter].
  - constructor.
  - destruct (keep a); [constructor |]; exact IH.
  - destruct (keep a), (keep b); try apply Permutation_refl. apply perm_swap.
  - eapply Permutation_trans; eassumption.
Qed.

Lemma reach_player0_beyond : in_reach player0 (food_at 21 0) = false.
Proof. apply out_of_reach_by_squares; settings; lra. Qed.

(** C4, amended. On a player of non-negative mass whose radius is the one
    derived from its mass, if no food of the list lies at a distance
    between the radius before the pass and the radius that consuming the
    foods within the radius before the pass would give, the pass on any
    reordering of the list eats the same foods (those within the radius
    before the pass) and leaves the same player, with the same mass. The
    foods out of reach do not count in the bound: only what is eaten makes
    the player grow. *)
Theorem consumption_order_stable (g : Game) (l' : list Food)
    (Hmass : 0 <= mass (player g))
    (Hradius : radius (player g) = radius_of_mass (mass (player g)))
    (Hperm : Permutation (food_list g) l')
    (Hgap : gap_free (player g)
              (radius_of_mass
                 (mass (player g)
                  + total_area (filter (in_reach (player g)) (food_list g))))
              (food_list g)) :
  exists (e1 e2 : list nat) (g1 g2 : Game),
    resolve_consumption g = Ok e1 g1 /\
    resolve_consumption (set_food_list l' g) = Ok e2 g2 /\
    player g1 = player g2 /\
    mass (player g1) = mass (player g2) /\
    foods_at e1 (food_list g) = filter (in_reach (player g)) (food_list g) /\
    Permutation (foods_at e1 (food_list g)) (foods_at e2 l').
Proof.
  destruct (pass_stable (player g) (food_list g) Hmass Hradius Hgap)
    as [He1 Hf1].
  pose proof (filter_perm (in_reach (player g)) _ _ Hperm) as Hreach.
  assert (Hgap' : gap_free (player g)
     (radius_of_mass
        (mass (player g) + total_area (filter (in_reach (player g)) l')))
     l').
  { intros f Hin. rewrite <- (total_area_perm _ _ Hreach).
    apply Hgap. eapply Permutation_in; [apply Permutation_sym, Hperm | exact Hin]. }
  destruct (pass_stable (player g) l' Hmass Hradius Hgap') as [He2 Hf2].
  assert (Hplayers : fed (food_list g) (player g) = fed l' (player g)).
  { rewrite Hf1, Hf2. apply fed_by_perm. exact Hreach. }
  exists (eaten_indices 0 (food_list g) (player g)),
         (eaten_indices 0 l' (player g)).
  do 2 eexists.
  split; [exact (resolve_consumption_returns g Hmass) |].
  split; [exact (resolve_consumption_returns (set_food_list l' g) Hmass) |].
  cbn [player food_list replenished set_random_state set_food_list set_player].
  split; [exact Hplayers |].
  split; [rewrite Hplayers; reflexivity |].
  split; [exact He1 |].
  rewrite He1, He2. exact Hreach.
Qed.

Lemma consumption_order_stable_witness :
  exists (e1 e2 : list nat) (g1 g2 : Game),
    resolve_consumption (game_with player0 [food_near; food_at 21 0])
      = Ok e1 g1 /\
    resolve_consumption
      (set_food_list [food_at 21 0; food_near]
         (game_with player0 [food_near; food_at 21 0]))
      = Ok e2 g2 /\
    player g1 = player g2 /\
    mass (player g1) = mass (player g2) /\
    foods_at e1 [food_near; food_at 21 0] = [food_near] /\
    Permutation (foods_at e1 [food_near; food_at 21 0])
      (foods_at e2 [food_at 21 0; food_near]).
Proof.
  pose proof (consumption_order_stable
                (game_with player0 [food_near; food_at 21 0])
                [food_at 21 0; food_near]) as H.
  change (player (game_with player0 [food_near; food_at 21 0]))
    with player0 in H.
  change (food_list (game_with player0 [food_near; food_at 21 0]))
    with [food_near; food_at 21 0] in H.
  cbn [filter] in H.
  rewrite reach_player0_near, reach_player0_beyond in H.
  apply H.
  - settings. lra.
  - unfold radius_of_mass. settings.
    replace (20 ^ 2) with (20 * 20) by lra.
    rewrite sqrt_square by lra. rewrite Rmax_left by lra. reflexivity.
  - apply perm_swap.
  - unfold gap_free. intros f [<- | [<- | []]].
    + left. unfold food_near. settings. apply sqrt_lt_sq; lra.
    + right. unfold radius_of_mass, food_near. cbn [total_area]. settings.
      apply Rmax_lub.
      * apply sqrt_le_sq; [lra | |].
        -- apply sqrt_pos.
        -- rewrite pow2_sqrt by lra. lra.
      * apply sqrt_ge_sq; lra.
Defined.

(** ** The radius follows the mass *)

Lemma move_keeps_size (p p' : Player) :
  move p = Ok tt p' -> radius p' = radius p /\ mass p' = mass p.
Proof.
  intros H.
  destruct (Rgt_dec (target_distance p) 1) as [Hfar | Hnear].
  - destruct (Req_dec_T (radius p) 0) as [Hz | Hnz].
    + rewrite (move_far_zero_radius _ Hfar Hz) in H. discriminate.
    + rewrite (move_far _ Hfar Hnz) in H. injection H as <-.
      split; reflexivity.
  - rewrite (move_near _ Hnear) in H. injection H as <-.
    split; reflexivity.
Qed.

Lemma update_description_timer_keeps_size (dt : R) (p p' : Player) :
  update_description_timer dt p = Ok tt p' ->
  radius p' = radius p /\ mass p' = mass p.
Proof.
  unfold update_description_timer, bind, get_self, get, modify, ret.
  destruct (Rgt_dec (description_timer p) 0).
  - match goal with |- context [Rle_dec ?a ?b] => destruct (Rle_dec a b) end;
      intros H; injection H as <-; split; reflexivity.
  - intros H; injection H as <-; split; reflexivity.
Qed.

Lemma grow_inv (d : R) (p p' : Player) :
  grow d p = Ok tt p' -> p' = grown d p /\ 0 <= mass p + d.
Proof.
  intros H.
  destruct (Rlt_dec (mass p + d) 0) as [Hneg | Hpos].
  - rewrite (grow_raises _ _ Hneg) in H. discriminate.
  - rewrite grow_returns in H by lra. injection H as <-. split; [reflexivity | lra].
Qed.

Lemma eat_inv (f : Food) (b : bool) (p p' : Player) :
  eat f p = Ok b p' ->
  (b = false /\ p' = p) \/
  (b = true /\ p' = grown (radius f ^ 2) p /\ 0 <= mass p + radius f ^ 2).
Proof.
  rewrite eat_unfold.
  destruct (Rlt_dec (center_distance p f) (radius p)) as [Hd | Hd].
  - unfold bind.
    destruct (grow (radius f ^ 2) p) as [[] q | e q] eqn:Hg; [| discriminate].
    apply grow_inv in Hg. destruct Hg as [-> Hm].
    intros H. injection H as <- <-. right. repeat split; assumption.
  - intros H. injection H as <- <-. left. split; reflexivity.
Qed.

Lemma observable_radius (p : Player) :
  observable p ->
  radius p = radius_of_mass (mass p) /\ INITIAL_PLAYER_RADIUS ^ 2 <= mass p.
Proof.
  induction 1 as [n c
                 | p p' mx my cx cy _ IH Hcall
                 | p p' _ IH Hcall
                 | p p' d _ IH Hd Hcall
                 | p p' f b _ IH Hcall
                 | p p' dt _ IH Hcall
                 | p text t _ IH].
  - unfold radius_of_mass. settings. split; [| lra].
    replace (20 ^ 2) with (20 * 20) by lra.
    rewrite sqrt_square by lra. rewrite Rmax_left by lra. reflexivity.
  - unfold update_target, bind, modify in Hcall. injection Hcall as <-.
    exact IH.
  - apply move_keeps_size in Hcall. destruct Hcall as [-> ->]. exact IH.
  - apply grow_inv in Hcall. destruct Hcall as [-> _].
    split; [reflexivity |]. cbn [grown mass]. lra.
  - apply eat_inv in Hcall.
    destruct Hcall as [[_ ->] | (_ & -> & _)]; [exact IH |].
    split; [reflexivity |]. cbn [grown mass].
    pose proof (pow2_ge_0 (radius f)). lra.
  - apply update_description_timer_keeps_size in Hcall.
    destruct Hcall as [-> ->]. exact IH.
  - exact IH.
Qed.

(** C5, as stated, fails: an increase of zero is allowed by the claim and
    leaves the mass of the initial player at 400. *)
Lemma grow_zero_not_strict :
  0 <= 0 /\ ~ mass player0 < mass (final_state (grow 0 player0)).
Proof.
  split; [lra |].
  rewrite grow_final_mass. lra.
Qed.

(** C5, amended. For a player of non-negative mass and an increase
    [d >= 0], [grow] returns, the new mass is [mass + d], which is never
    below the old mass and is strictly above it exactly when [d > 0], and
    the new radius is [max(sqrt(new mass), MIN_PLAYER_RADIUS)]; in every
    observable state the radius is that function of the mass. *)
Theorem grow_spec (p : Player) (d : R) (Hmass : 0 <= mass p) (Hd : 0 <= d) :
  (exists p' : Player,
     grow d p = Ok tt p' /\
     mass p' = mass p + d /\
     mass p <= mass p' /\
     (mass p < mass p' <-> 0 < d) /\
     radius p' = radius_of_mass (mass p')) /\
  (forall q : Player, observable q -> radius q = radius_of_mass (mass q)).
Proof.
  split.
  - exists (grown d p).
    split; [apply grow_returns; lra |].
    unfold grown, radius_of_mass. cbn [mass radius obj].
    repeat split; intros; lra.
  - intros q Hq. apply observable_radius. exact Hq.
Qed.

Lemma grow_spec_witness :
  exists p' : Player,
    grow 25 player0 = Ok tt p' /\
    mass p' = mass player0 + 25 /\
    mass player0 <= mass p' /\
    (mass player0 < mass p' <-> 0 < 25) /\
    radius p' = radius_of_mass (mass p').
Proof.
  apply (grow_spec player0 25); settings; lra.
Defined.

(** ** Where foods are created *)

(** C8, as stated, fails: with a sample of 0.9995 the food is created at
    [x = 999], and with its radius 5 it reaches beyond the wall at 1000. *)
Lemma food_beyond_wall :
  exists (f : Food) (g' : RandomState),
    Food_init random_near_one = Ok f g' /\
    x f = 999 /\
    radius f = 5 /\
    ~ disc_in_world f.
Proof.
  exists (food_drawn random_near_one), (advance 5 random_near_one).
  split; [reflexivity |].
  assert (Hx : x (food_drawn random_near_one) = 999).
  { unfold food_drawn, sample_at, random_near_one, near_one. settings. cbn. lra. }
  split; [exact Hx |].
  split; [reflexivity |].
  unfold disc_in_world. rewrite Hx. intros [Hbound _].
  rewrite Rabs_pos_eq in Hbound by lra.
  unfold food_drawn in Hbound. settings. lra.
Qed.

Lemma fresh_foods_created (k : nat) (g : RandomState) :
  Forall (fun f : Food => center_in_world f /\ radius f = FOOD_RADIUS)
    (fresh_foods k g).
Proof.
  revert g. induction k as [| k IH]; intros g; constructor.
  - split; [apply food_drawn_center | reflexivity].
  - apply IH.
Qed.

(** C8, amended. Every food created, by [Food()] alone, by [spawn_food]
    and as a replacement in the consumption pass, has radius
    [FOOD_RADIUS] and its centre inside the world:
    [|x| <= WORLD_WIDTH/2] and [|y| <= WORLD_HEIGHT/2]. *)
Theorem food_created_in_world (g : RandomState) (count : nat) (game : Game)
    (Hmass : 0 <= mass (player game)) :
  (exists (f : Food) (g' : RandomState),
     Food_init g = Ok f g' /\ center_in_world f /\ radius f = FOOD_RADIUS) /\
  (exists (l : list Food) (g' : RandomState),
     spawn_food count g = Ok l g' /\
     length l = count /\
     Forall (fun f : Food => center_in_world f /\ radius f = FOOD_RADIUS) l) /\
  (exists (eaten : list nat) (game' : Game) (created : list Food),
     resolve_consumption game = Ok eaten game' /\
     food_list game' = uneaten (food_list game) (player game) ++ created /\
     length created = length eaten /\
     Forall (fun f : Food => center_in_world f /\ radius f = FOOD_RADIUS)
       created).
Proof.
  split; [| split].
  - exists (food_drawn g), (advance 5 g).
    split; [reflexivity |]. split; [apply food_drawn_center | reflexivity].
  - exists (fresh_foods count g), (skip_foods count g).
    split; [apply spawn_food_returns |].
    split; [apply fresh_foods_length | apply fresh_foods_created].
  - exists (eaten_indices 0 (food_list game) (player game)).
    eexists. eexists.
    split; [apply resolve_consumption_returns; exact Hmass |].
    split; [reflexivity |].
    split; [apply fresh_foods_length | apply fresh_foods_created].
Qed.

Lemma food_created_in_world_witness :
  exists (eaten : list nat) (game' : Game) (created : list Food),
    resolve_consumption game0 = Ok eaten game' /\
    food_list game' = uneaten (food_list game0) (player game0) ++ created /\
    length created = length eaten /\
    Forall (fun f : Food => center_in_world f /\ radius f = FOOD_RADIUS)
      created.
Proof.
  apply (food_created_in_world random_half 3 game0).
  unfold game0. cbn [player]. settings. lra.
Defined.

(** ** The length of a step *)

Lemma clamp_inside (lo hi v : R) : lo <= v <= hi -> Rmax lo (Rmin hi v) = v.
Proof.
  intros [Hlo Hhi]. rewrite Rmin_right by exact Hhi.
  apply Rmax_right. exact Hlo.
Qed.

(** A step that the clamp does not cut has the length of the speed. *)
Lemma move_step_length (p : Player) :
  let d := target_distance p in
  let s := speed_of_radius (radius p) in
  let nx := x p + (target_x p - x p) / d * s in
  let ny := y p + (target_y p - y p) / d * s in
  d > 1 ->
  radius p <> 0 ->
  - WORLD_WIDTH / 2 + radius p <= nx <= WORLD_WIDTH / 2 - radius p ->
  - WORLD_HEIGHT / 2 + radius p <= ny <= WORLD_HEIGHT / 2 - radius p ->
  move p = Ok tt (moved p) /\
  x (moved p) = nx /\ y (moved p) = ny /\
  center_distance (moved p) p = s.
Proof.
  intros d s nx ny Hd Hr Hx Hy.
  split; [apply move_far; assumption |].
  assert (Hmx : x (moved p) = nx) by (apply clamp_inside; exact Hx).
  assert (Hmy : y (moved p) = ny) by (apply clamp_inside; exact Hy).
  split; [exact Hmx |]. split; [exact Hmy |].
  unfold center_distance. rewrite Hmx, Hmy. subst nx ny.
  assert (Hd2 : d ^ 2 = (target_x p - x p) ^ 2 + (target_y p - y p) ^ 2).
  { subst d. unfold target_distance. apply pow2_sqrt. apply sum_sqr_nonneg. }
  assert (Hs : 0 <= s).
  { subst s. pose proof (speed_of_radius_floor (radius p)). lra. }
  replace ((x p + (target_x p - x p) / d * s - x p) ^ 2
           + (y p + (target_y p - y p) / d * s - y p) ^ 2)
    with (s ^ 2).
  - apply sqrt_pow2. exact Hs.
  - transitivity (s ^ 2 * (((target_x p - x p) ^ 2 + (target_y p - y p) ^ 2) / d ^ 2)).
    + rewrite <- Hd2. field. lra.
    + field. lra.
Qed.

(** The scenario of the specification: a target 1000 units away on one
    axis moves the initial player by its speed, 0.1, not to the target. *)
Example move_towards_far_target :
  let p := set_target_x 1000 player0 in
  move p = Ok tt (moved p) /\ x (moved p) = 0.1 /\ y (moved p) = 0.
Proof.
  intros p.
  assert (Hd : target_distance p = 1000).
  { subst p. settings.
    replace ((1000 - 0) ^ 2 + (0 - 0) ^ 2) with (1000 ^ 2) by lra.
    apply sqrt_pow2. lra. }
  assert (Hs : speed_of_radius (radius p) = 0.1).
  { apply speed_of_radius_large. subst p. settings. lra. }
  destruct (move_step_length p) as (Hmove & Hx & Hy & _).
  - rewrite Hd. lra.
  - subst p. settings. lra.
  - rewrite Hd, Hs. subst p. settings. lra.
  - rewrite Hd, Hs. subst p. settings. lra.
  - split; [exact Hmove |].
    rewrite Hx, Hy, Hd, Hs. subst p. settings. split; lra.
Qed.

(** ** The list builtins on given lists *)

Example sorted_reverse_examples :
  sorted_reverse [0; 2; 5]%nat = [5; 2; 0]%nat /\
  sorted_reverse [3; 1; 2; 1]%nat = [3; 2; 1; 1]%nat.
Proof. split; reflexivity. Qed.

Example list_pop_examples :
  list_pop 1 [10; 20; 30]%nat = inr [10; 30]%nat /\
  list_pop 3 [10; 20; 30]%nat = inl IndexError.
Proof. split; reflexivity. Qed.

(** * Further properties of the code *)

(** ** The annotation timer *)

Lemma update_description_timer_returns (dt : R) (p : Player) :
  update_description_timer dt p = Ok tt (ticked dt p).
Proof.
  unfold update_description_timer, ticked, bind, get_self, get, modify, ret.
  destruct (Rgt_dec (description_timer p) 0); [| reflexivity].
  cbn [description_timer set_description_timer].
  destruct (Rle_dec (description_timer p - dt) 0); reflexivity.
Qed.

(** X1. [update_description_timer] always returns and touches only the
    annotation.  With a timer that is not positive nothing changes.  With
    a positive timer [t] the timer becomes [t - dt]; the text is kept when
    [dt < t] and becomes empty when [dt >= t]. *)
Theorem description_timer_countdown (dt : R) (p : Player) :
  exists p' : Player,
    update_description_timer dt p = Ok tt p' /\
    obj p' = obj p /\ mass p' = mass p /\ name p' = name p /\
    target_x p' = target_x p /\ target_y p' = target_y p /\
    (description_timer p <= 0 -> p' = p) /\
    (0 < description_timer p ->
       description_timer p' = description_timer p - dt /\
       (dt < description_timer p ->
          gemini_description p' = gemini_description p) /\
       (description_timer p <= dt -> gemini_description p' = EmptyString)).
Proof.
  exists (ticked dt p).
  split; [apply update_description_timer_returns |].
  unfold ticked.
  destruct (Rgt_dec (description_timer p) 0) as [Hpos | Hnot].
  - destruct (Rle_dec (description_timer p - dt) 0) as [Hend | Hleft];
      cbn; repeat split; intros; try reflexivity; lra.
  - repeat split; intros; try reflexivity; lra.
Qed.

Lemma description_timer_countdown_witness :
  (exists p' : Player,
     update_description_timer 5 player_hello = Ok tt p' /\
     description_timer p' = 0 /\ gemini_description p' = EmptyString) /\
  (exists p' : Player,
     update_description_timer 2 player_hello = Ok tt p' /\
     description_timer p' = 3 /\ gemini_description p' = "hello"%string).
Proof.
  assert (Ht : 0 < description_timer player_hello) by (cbn; lra).
  split.
  - destruct (description_timer_countdown 5 player_hello)
      as (p' & Hcall & _ & _ & _ & _ & _ & _ & Hrun).
    destruct (Hrun Ht) as (Htimer & _ & Hclear).
    exists p'. split; [exact Hcall |]. split.
    + rewrite Htimer. cbn. lra.
    + apply Hclear. cbn. lra.
  - destruct (description_timer_countdown 2 player_hello)
      as (p' & Hcall & _ & _ & _ & _ & _ & _ & Hrun).
    destruct (Hrun Ht) as (Htimer & Hkeep & _).
    exists p'. split; [exact Hcall |]. split.
    + rewrite Htimer. cbn. lra.
    + rewrite Hkeep by (cbn; lra). reflexivity.
Defined.

(** ** The text of a reply *)

Lemma remove_char_absent (c : ascii) (s : string) :
  ~ In c (list_ascii_of_string (remove_char c s)).
Proof.
  induction s as [| d t IH]; cbn [remove_char]; [intros [] |].
  destruct (Ascii.eqb d c) eqn:Hdc; [exact IH |].
  cbn [list_ascii_of_string]. intros [Heq | Hin]; [| exact (IH Hin)].
  subst d. rewrite Ascii.eqb_refl in Hdc. discriminate.
Qed.

Lemma remove_char_length (c : ascii) (s : string) :
  (String.length (remove_char c s) <= String.length s)%nat.
Proof.
  induction s as [| d t IH]; cbn [remove_char String.length]; [lia |].
  destruct (Ascii.eqb d c); cbn [String.length]; lia.
Qed.

Lemma lstrip_length (s : string) :
  (String.length (lstrip s) <= String.length s)%nat.
Proof.
  induction s as [| c t IH]; cbn [lstrip String.length]; [lia |].
  destruct (py_isspace c); cbn [String.length]; lia.
Qed.

Lemma rstrip_length (s : string) :
  (String.length (rstrip s) <= String.length s)%nat.
Proof.
  induction s as [| c t IH]; cbn [rstrip String.length]; [lia |].
  destruct (rstrip t) as [| c' t'].
  - destruct (py_isspace c); cbn [String.length] in *; lia.
  - cbn [String.length] in *. lia.
Qed.

Lemma remove_char_filter (c : ascii) (s : string) :
  list_ascii_of_string (remove_char c s)
  = filter (fun d : ascii => negb (Ascii.eqb d c)) (list_ascii_of_string s).
Proof.
  induction s as [| d t IH]; cbn [remove_char list_ascii_of_string filter];
    [reflexivity |].
  destruct (Ascii.eqb d c); cbn [negb list_ascii_of_string];
    rewrite IH; reflexivity.
Qed.

Lemma lstrip_split (s : string) :
  exists pre : string, s = (pre ++ lstrip s)%string /\ all_space pre = true.
Proof.
  induction s as [| c t (pre & Heq & Hpre)]; cbn [lstrip].
  - exists EmptyString. split; reflexivity.
  - destruct (py_isspace c) eqn:Hc.
    + exists (String c pre). cbn [append all_space].
      rewrite <- Heq, Hc, Hpre. split; reflexivity.
    + exists EmptyString. split; reflexivity.
Qed.

Lemma lstrip_starts_clean (s : string) : starts_clean (lstrip s) = true.
Proof.
  induction s as [| c t IH]; cbn [lstrip]; [reflexivity |].
  destruct (py_isspace c) eqn:Hc; [exact IH |].
  cbn [starts_clean]. rewrite Hc. reflexivity.
Qed.

Lemma rstrip_split (s : string) :
  exists post : string, s = (rstrip s ++ post)%string /\ all_space post = true.
Proof.
  induction s as [| c t (post & Heq & Hpost)]; cbn [rstrip].
  - exists EmptyString. split; reflexivity.
  - destruct (rstrip t) as [| c' t'] eqn:Ht.
    + cbn [append] in Heq. subst post.
      destruct (py_isspace c) eqn:Hc.
      * exists (String c t). cbn [append all_space].
        rewrite Hc, Hpost. split; reflexivity.
      * exists t. split; [reflexivity | exact Hpost].
    + exists post. cbn [append] in *. rewrite <- Heq.
      split; [reflexivity | exact Hpost].
Qed.

Lemma rstrip_ends_clean (s : string) : ends_clean (rstrip s) = true.
Proof.
  induction s as [| c t IH]; cbn [rstrip]; [reflexivity |].
  destruct (rstrip t) as [| c' t'].
  - destruct (py_isspace c) eqn:Hc; cbn [ends_clean]; [| rewrite Hc];
      reflexivity.
  - exact IH.
Qed.

Lemma rstrip_starts_clean (s : string) :
  starts_clean s = true -> starts_clean (rstrip s) = true.
Proof.
  destruct s as [| c t]; cbn [rstrip starts_clean]; [reflexivity |].
  intros Hc. destruct (rstrip t).
  - destruct (py_isspace c) eqn:Hsp; [discriminate |].
    cbn [starts_clean]. rewrite Hsp. reflexivity.
  - exact Hc.
Qed.

Lemma strip_split (s : string) :
  exists pre post : string,
    s = (pre ++ (strip s ++ post))%string /\
    all_space pre = true /\ all_space post = true.
Proof.
  destruct (lstrip_split s) as (pre & Hs & Hpre).
  destruct (rstrip_split (lstrip s)) as (post & Hl & Hpost).
  exists pre, post. unfold strip. rewrite <- Hl.
  split; [exact Hs |]. split; assumption.
Qed.

(** X2. When no request is in progress and the service is available, a
    request that the service answers with a text of ASCII characters
    returns; the annotation is then the answer stripped and with every
    double quote removed: the answer is whitespace, then the stripped
    text, then whitespace, the stripped text neither starts nor ends with
    whitespace, and the annotation is made of the characters of the
    stripped text other than the double quote, in their order. So the
    annotation holds no double quote and is not longer than the answer.
    The local [gemini_description_text] holds the same text. *)
Theorem reply_text_has_no_quote (g : Game) (text : string)
    (Hidle : gemini_request_in_progress g = false)
    (Hascii : ascii_text text = true) :
  exists g' : Game,
    on_key_g true (Reply text) g = Ok tt g' /\
    gemini_description (player g') = remove_char double_quote (strip text) /\
    (exists pre post : string,
        text = (pre ++ (strip text ++ post))%string /\
        all_space pre = true /\ all_space post = true) /\
    starts_clean (strip text) = true /\
    ends_clean (strip text) = true /\
    list_ascii_of_string (gemini_description (player g'))
    = filter (fun c : ascii => negb (Ascii.eqb c double_quote))
        (list_ascii_of_string (strip text)) /\
    ~ In double_quote
        (list_ascii_of_string (gemini_description (player g'))) /\
    (String.length (gemini_description (player g')) <= String.length text)%nat /\
    gemini_description_text g' = gemini_description (player g').
Proof.
  eexists. split.
  - unfold on_key_g, bind at 1, get_game, get. rewrite Hidle. cbn. reflexivity.
  - cbn [player gemini_description gemini_description_text
         set_player set_gemini_description_text].
    cbn.
    split; [reflexivity |].
    split; [apply strip_split |].
    split; [apply rstrip_starts_clean, lstrip_starts_clean |].
    split; [apply rstrip_ends_clean |].
    split; [apply remove_char_filter |].
    split; [apply remove_char_absent |]. split; [| reflexivity].
    eapply Nat.le_trans; [apply remove_char_length |].
    unfold strip. eapply Nat.le_trans; [apply rstrip_length | apply lstrip_length].
Qed.

Lemma reply_text_has_no_quote_witness :
  gemini_request_in_progress game0 = false /\
  ascii_text quoted_reply = true /\
  exists g' : Game,
    on_key_g true (Reply quoted_reply) game0 = Ok tt g' /\
    strip quoted_reply
    = String double_quote ("a cell" ++ String double_quote EmptyString) /\
    gemini_description (player g') = "a cell"%string /\
    gemini_description_text g' = "a cell"%string.
Proof.
  split; [reflexivity |]. split; [reflexivity |].
  destruct (reply_text_has_no_quote game0 quoted_reply eq_refl eq_refl)
    as (g' & Hrun & Htext & _ & _ & _ & _ & _ & _ & Hlocal).
  exists g'. split; [exact Hrun |]. split; [reflexivity |].
  rewrite Hlocal, Htext. split; reflexivity.
Defined.

(** ** Observable players *)

Lemma observable_sqrt (p : Player) :
  observable p ->
  radius p = sqrt (mass p) /\ INITIAL_PLAYER_RADIUS <= radius p.
Proof.
  intros Hobs. destruct (observable_radius p Hobs) as [Hr Hm].
  unfold INITIAL_PLAYER_RADIUS in *.
  assert (Hs : 20 <= sqrt (mass p)) by (apply sqrt_ge_sq; lra).
  unfold radius_of_mass, MIN_PLAYER_RADIUS in Hr.
  rewrite Rmax_left in Hr by lra.
  rewrite Hr. split; [reflexivity | exact Hs].
Qed.

(** X3. In every observable state of the player the mass is the square of
    the radius, the radius is the square root of the mass and is at least
    [INITIAL_PLAYER_RADIUS]: the floor [MIN_PLAYER_RADIUS] of [grow] is
    never the value of the radius. *)
Theorem observable_mass_is_area (p : Player) (Hobs : observable p) :
  mass p = radius p ^ 2 /\
  radius p = sqrt (mass p) /\
  INITIAL_PLAYER_RADIUS <= radius p /\
  MIN_PLAYER_RADIUS < radius p.
Proof.
  destruct (observable_sqrt p Hobs) as [Hr Hlow].
  destruct (observable_radius p Hobs) as [_ Hm].
  unfold INITIAL_PLAYER_RADIUS, MIN_PLAYER_RADIUS in *.
  repeat split; try assumption; try lra.
  rewrite Hr. rewrite pow2_sqrt by lra. reflexivity.
Qed.

Lemma observable_after_eating : observable (grown 25 player0).
Proof.
  apply (obs_eat player0 (grown 25 player0) (food_at 5 0) true).
  - apply obs_init.
  - apply eat_food_at_5.
Qed.

Lemma observable_mass_is_area_witness :
  mass (grown 25 player0) = radius (grown 25 player0) ^ 2 /\
  radius (grown 25 player0) = sqrt (mass (grown 25 player0)) /\
  INITIAL_PLAYER_RADIUS <= radius (grown 25 player0) /\
  MIN_PLAYER_RADIUS < radius (grown 25 player0).
Proof.
  exact (observable_mass_is_area (grown 25 player0) observable_after_eating).
Defined.

(** X4. In every observable state of the player [move] computes the speed
    0.1: the radius is never below [INITIAL_PLAYER_RADIUS], so the scaled
    speed is never above the minimum speed. *)
Theorem observable_speed (p : Player) (Hobs : observable p) :
  move_speed p = Ok 0.1 p /\ speed_of_radius (radius p) = 0.1.
Proof.
  destruct (observable_sqrt p Hobs) as [_ Hlow].
  assert (Hs : speed_of_radius (radius p) = 0.1)
    by (apply speed_of_radius_large; exact Hlow).
  split; [| exact Hs].
  rewrite move_speed_returns by (unfold INITIAL_PLAYER_RADIUS in Hlow; lra).
  rewrite Hs. reflexivity.
Qed.

Lemma observable_speed_witness :
  move_speed (grown 25 player0) = Ok 0.1 (grown 25 player0) /\
  speed_of_radius (radius (grown 25 player0)) = 0.1.
Proof.
  exact (observable_speed (grown 25 player0) observable_after_eating).
Defined.

(** ** A step towards the target *)

Lemma speed_of_radius_bound (r : R) :
  MIN_PLAYER_RADIUS <= r -> 0.1 <= speed_of_radius r <= 0.4.
Proof.
  intros Hr. split; [apply speed_of_radius_floor |].
  unfold speed_of_radius, PLAYER_SPEED_FACTOR, INITIAL_PLAYER_RADIUS,
    MIN_PLAYER_RADIUS in *.
  apply Rmax_lub; [| lra].
  assert (Hinv : 0 < / r) by (apply Rinv_0_lt_compat; lra).
  assert (Hone : r * / r = 1) by (apply Rinv_r; lra).
  unfold Rdiv. nra.
Qed.

(** X5. For a player whose radius is at least [MIN_PLAYER_RADIUS] and
    whose target is further than one unit, a step that the clamp does not
    cut keeps the target and brings the player closer to it by exactly the
    speed, which lies between 0.1 and 0.4: the player never jumps over its
    target. *)
Theorem move_approaches_target (p : Player) :
  let d := target_distance p in
  let s := speed_of_radius (radius p) in
  let nx := x p + (target_x p - x p) / d * s in
  let ny := y p + (target_y p - y p) / d * s in
  MIN_PLAYER_RADIUS <= radius p ->
  d > 1 ->
  - WORLD_WIDTH / 2 + radius p <= nx <= WORLD_WIDTH / 2 - radius p ->
  - WORLD_HEIGHT / 2 + radius p <= ny <= WORLD_HEIGHT / 2 - radius p ->
  exists p' : Player,
    move p = Ok tt p' /\
    target_x p' = target_x p /\ target_y p' = target_y p /\
    target_distance p' = d - s /\
    0.1 <= s <= 0.4.
Proof.
  intros d s nx ny Hr Hd Hx Hy.
  pose proof (speed_of_radius_bound _ Hr) as Hs. fold s in Hs.
  assert (Hrnz : radius p <> 0) by (unfold MIN_PLAYER_RADIUS in Hr; lra).
  exists (moved p).
  split; [apply move_far; assumption |].
  split; [reflexivity |]. split; [reflexivity |]. split; [| exact Hs].
  assert (Hmx : x (moved p) = nx) by (apply clamp_inside; exact Hx).
  assert (Hmy : y (moved p) = ny) by (apply clamp_inside; exact Hy).
  unfold target_distance at 1.
  change (target_x (moved p)) with (target_x p).
  change (target_y (moved p)) with (target_y p).
  rewrite Hmx, Hmy. subst nx ny.
  assert (Hd2 : d ^ 2 = (target_x p - x p) ^ 2 + (target_y p - y p) ^ 2).
  { subst d. unfold target_distance. apply pow2_sqrt. apply sum_sqr_nonneg. }
  replace ((target_x p - (x p + (target_x p - x p) / d * s)) ^ 2
           + (target_y p - (y p + (target_y p - y p) / d * s)) ^ 2)
    with ((d - s) ^ 2).
  - apply sqrt_pow2. lra.
  - transitivity
      (((target_x p - x p) ^ 2 + (target_y p - y p) ^ 2) * ((d - s) / d) ^ 2).
    + rewrite <- Hd2. field. lra.
    + field. lra.
Qed.

Lemma move_approaches_target_witness :
  exists p' : Player,
    move (set_target_x 1000 player0) = Ok tt p' /\
    target_x p' = target_x (set_target_x 1000 player0) /\
    target_y p' = target_y (set_target_x 1000 player0) /\
    target_distance p'
      = target_distance (set_target_x 1000 player0)
        - speed_of_radius (radius (set_target_x 1000 player0)) /\
    0.1 <= speed_of_radius (radius (set_target_x 1000 player0)) <= 0.4.
Proof.
  assert (Hd : target_distance (set_target_x 1000 player0) = 1000).
  { settings.
    replace ((1000 - 0) ^ 2 + (0 - 0) ^ 2) with (1000 ^ 2) by lra.
    apply sqrt_pow2. lra. }
  assert (Hs : speed_of_radius (radius (set_target_x 1000 player0)) = 0.1).
  { apply speed_of_radius_large. settings. lra. }
  apply (move_approaches_target (set_target_x 1000 player0)).
  - settings. lra.
  - rewrite Hd. lra.
  - rewrite Hd, Hs. settings. lra.
  - rewrite Hd, Hs. settings. lra.
Defined.

(** ** What a consumption pass does to the player *)

Lemma fed_mass (l : list Food) :
  forall p : Player, mass (fed l p) = mass p + total_area (eaten_foods l p).
Proof.
  induction l as [| f rest IH]; intros p; cbn [fed eaten_foods total_area].
  - lra.
  - destruct (in_reach p f).
    + rewrite IH. cbn [grown mass total_area]. lra.
    + apply IH.
Qed.

Lemma fed_keeps_place (l : list Food) :
  forall p : Player,
    x (fed l p) = x p /\ y (fed l p) = y p /\ color (fed l p) = color p /\
    name (fed l p) = name p /\
    target_x (fed l p) = target_x p /\ target_y (fed l p) = target_y p /\
    gemini_description (fed l p) = gemini_description p /\
    description_timer (fed l p) = description_timer p.
Proof.
  induction l as [| f rest IH]; intros p; cbn [fed].
  - repeat split.
  - destruct (in_reach p f); [| apply IH].
    destruct (IH (grown (radius f ^ 2) p)) as (H1 & H2 & H3 & H4 & H5 & H6 & H7 & H8).
    repeat split; assumption.
Qed.

Lemma eaten_foods_length (l : list Food) :
  forall (i : nat) (p : Player),
    length (eaten_foods l p) = length (eaten_indices i l p).
Proof.
  induction l as [| f rest IH]; intros i p; cbn [eaten_foods eaten_indices];
    [reflexivity |].
  destruct (in_reach p f); cbn [length]; [f_equal |]; apply IH.
Qed.

Lemma eaten_foods_all (P : Food -> Prop) (l : list Food) :
  forall p : Player, Forall P l -> Forall P (eaten_foods l p).
Proof.
  induction l as [| f rest IH]; intros p Hall; cbn [eaten_foods];
    [constructor |].
  inversion Hall as [| ? ? Hf Hrest]; subst.
  destruct (in_reach p f); [constructor; [exact Hf |] |]; apply IH; exact Hrest.
Qed.

Lemma total_area_uniform (l : list Food) :
  Forall (fun f : Food => radius f = FOOD_RADIUS) l ->
  total_area l = FOOD_RADIUS ^ 2 * INR (length l).
Proof.
  induction 1 as [| f rest Hf _ IH]; cbn [total_area length].
  - cbn. lra.
  - rewrite S_INR, IH, Hf. lra.
Qed.

(** X6. On a player of non-negative mass the consumption pass returns and
    adds to the mass the squared radii of the foods it ate, so the mass
    never goes down; it leaves the place, the target and the annotation of
    the player as they were; and when every food has the radius
    [FOOD_RADIUS] the gain is [FOOD_RADIUS ^ 2] for each eaten food. *)
Theorem resolve_consumption_mass (g : Game) (Hmass : 0 <= mass (player g)) :
  exists (eaten : list nat) (g' : Game),
    resolve_consumption g = Ok eaten g' /\
    mass (player g')
      = mass (player g) + total_area (foods_at eaten (food_list g)) /\
    mass (player g) <= mass (player g') /\
    x (player g') = x (player g) /\ y (player g') = y (player g) /\
    target_x (player g') = target_x (player g) /\
    target_y (player g') = target_y (player g) /\
    gemini_description (player g') = gemini_description (player g) /\
    description_timer (player g') = description_timer (player g) /\
    (Forall (fun f : Food => radius f = FOOD_RADIUS) (food_list g) ->
     mass (player g')
       = mass (player g) + FOOD_RADIUS ^ 2 * INR (length eaten)).
Proof.
  exists (eaten_indices 0 (food_list g) (player g)).
  eexists. split; [exact (resolve_consumption_returns g Hmass) |].
  cbn [player replenished set_random_state set_food_list set_player].
  pose proof (foods_at_eaten (food_list g) (player g) []) as Hfa.
  cbn [length app] in Hfa. rewrite Hfa.
  destruct (fed_keeps_place (food_list g) (player g))
    as (Hx & Hy & _ & _ & Htx & Hty & Hdesc & Htimer).
  pose proof (total_area_nonneg (eaten_foods (food_list g) (player g))) as Hnn.
  rewrite fed_mass.
  repeat split; try assumption; try lra.
  intros Hall.
  rewrite (total_area_uniform _ (eaten_foods_all _ _ (player g) Hall)).
  rewrite (eaten_foods_length _ 0%nat). reflexivity.
Qed.

Lemma resolve_consumption_mass_witness :
  exists (eaten : list nat) (g' : Game),
    resolve_consumption game0 = Ok eaten g' /\
    mass (player g')
      = mass (player game0) + total_area (foods_at eaten (food_list game0)) /\
    mass (player game0) <= mass (player g') /\
    x (player g') = x (player game0) /\ y (player g') = y (player game0) /\
    target_x (player g') = target_x (player game0) /\
    target_y (player g') = target_y (player game0) /\
    gemini_description (player g') = gemini_description (player game0) /\
    description_timer (player g') = description_timer (player game0) /\
    (Forall (fun f : Food => radius f = FOOD_RADIUS) (food_list game0) ->
     mass (player g')
       = mass (player game0) + FOOD_RADIUS ^ 2 * INR (length eaten)).
Proof.
  apply (resolve_consumption_mass game0).
  unfold game0. cbn [player]. settings. lra.
Defined.

(** ** The state updates of a turn *)

Lemma move_returns (p : Player) :
  radius p <> 0 -> move p = Ok tt (after_move p).
Proof.
  intros Hr. unfold after_move.
  destruct (Rgt_dec (target_distance p) 1) as [Hfar | Hnear].
  - apply move_far; assumption.
  - apply move_near; assumption.
Qed.

Lemma after_move_size (p : Player) :
  radius (after_move p) = radius p /\ mass (after_move p) = mass p /\
  target_x (after_move p) = target_x p /\ target_y (after_move p) = target_y p /\
  gemini_description (after_move p) = gemini_description p /\
  description_timer (after_move p) = description_timer p.
Proof.
  unfold after_move. destruct (Rgt_dec (target_distance p) 1);
    repeat split; reflexivity.
Qed.

Lemma update_game_state_returns (mouse_x mouse_y dt : R) (g : Game) :
  radius (player g) <> 0 ->
  0 <= mass (player g) ->
  update_game_state mouse_x mouse_y dt g = Ok tt (updated mouse_x mouse_y dt g).
Proof.
  intros Hr Hm.
  unfold update_game_state, bind at 1, get_game, get.
  unfold bind at 1, on_player at 1, zoom.
  change (update_target mouse_x mouse_y (camera_x g) (camera_y g) (player g))
    with (Ok tt (retargeted (mouse_x + camera_x g) (mouse_y + camera_y g)
                   (player g))).
  set (p0 := retargeted (mouse_x + camera_x g) (mouse_y + camera_y g) (player g)).
  unfold bind at 1, on_player at 1, zoom. cbn [player set_player].
  rewrite (move_returns p0) by exact Hr.
  set (p1 := after_move p0).
  assert (Hm1 : 0 <= mass p1).
  { subst p1. destruct (after_move_size p0) as (_ & -> & _). exact Hm. }
  unfold bind at 1, modify at 1. unfold bind at 1, modify at 1.
  unfold bind at 1, modify at 1. unfold bind at 1, modify at 1.
  unfold bind at 1.
  rewrite resolve_consumption_returns
    by (cbn [player set_player set_camera_x set_camera_y]; exact Hm1).
  unfold on_player, zoom. rewrite update_description_timer_returns.
  cbn [player food_list random_state camera_x camera_y running
       gemini_request_in_progress gemini_description_text
       set_player set_camera_x set_camera_y set_food_list set_random_state
       replenished].
  rewrite !py_max_Rmax, !py_min_Rmin.
  reflexivity.
Qed.

(** ** Events *)

Lemma on_key_g_idle (reply : gemini_reply) (g : Game) :
  gemini_request_in_progress g = false ->
  exists (text : string) (timer : R),
    0 < timer /\
    on_key_g true reply g
    = Ok tt (mkGame (running g)
               (set_description_timer timer
                  (set_gemini_description text (player g)))
               (food_list g) (camera_x g) (camera_y g) false
               (match reply with
                | Reply t => remove_char double_quote (strip t)
                | Failure => gemini_description_text g
                end)
               (random_state g)).
Proof.
  intros Hidle. destruct reply as [t |].
  - exists (remove_char double_quote (strip t)), DESCRIPTION_DURATION.
    split; [unfold DESCRIPTION_DURATION; lra |].
    unfold on_key_g, bind at 1, get_game, get. rewrite Hidle. reflexivity.
  - exists "Gemini error :("%string, 2.
    split; [lra |].
    unfold on_key_g, bind at 1, get_game, get. rewrite Hidle. reflexivity.
Qed.

Lemma on_key_g_skipped (gemini_available : bool) (reply : gemini_reply) (g : Game) :
  gemini_available = false \/ gemini_request_in_progress g = true ->
  on_key_g gemini_available reply g = Ok tt g.
Proof.
  intros Hskip. unfold on_key_g, bind at 1, get_game, get.
  destruct Hskip as [-> | ->]; [reflexivity |].
  rewrite Bool.andb_false_r. reflexivity.
Qed.

(** What one event can change: the flag [running], which it can only
    clear, and the annotation. *)
Lemma handle_event_fields (gemini_available : bool) (e : event)
    (reply : gemini_reply) (g : Game) :
  exists g' : Game,
    handle_event gemini_available e reply g = Ok tt g' /\
    obj (player g') = obj (player g) /\
    mass (player g') = mass (player g) /\
    name (player g') = name (player g) /\
    target_x (player g') = target_x (player g) /\
    target_y (player g') = target_y (player g) /\
    food_list g' = food_list g /\
    camera_x g' = camera_x g /\ camera_y g' = camera_y g /\
    random_state g' = random_state g /\
    gemini_request_in_progress g' = gemini_request_in_progress g /\
    (annotation_ok (player g) -> annotation_ok (player g')) /\
    (running g' = true -> running g = true) /\
    (e = QUIT \/ e = KEYDOWN K_ESCAPE -> running g' = false).
Proof.
  assert (Hsame : exists g' : Game,
    Ok tt g = Ok tt g' /\
    obj (player g') = obj (player g) /\
    mass (player g') = mass (player g) /\
    name (player g') = name (player g) /\
    target_x (player g') = target_x (player g) /\
    target_y (player g') = target_y (player g) /\
    food_list g' = food_list g /\
    camera_x g' = camera_x g /\ camera_y g' = camera_y g /\
    random_state g' = random_state g /\
    gemini_request_in_progress g' = gemini_request_in_progress g /\
    (annotation_ok (player g) -> annotation_ok (player g')) /\
    (running g' = true -> running g = true)).
  { exists g. repeat split; auto. }
  destruct e as [| [| |] |]; cbn [handle_event].
  - exists (set_running false g). cbn. repeat split; auto; discriminate.
  - exists (set_running false g). cbn. repeat split; auto; discriminate.
  - destruct gemini_available;
      [destruct (gemini_request_in_progress g) eqn:Hbusy |].
    + rewrite on_key_g_skipped by (right; exact Hbusy).
      destruct Hsame as (g' & H & Hrest). exists g'.
      split; [exact H |].
      repeat split; try apply Hrest.
      intros [Habs | Habs]; discriminate.
    + destruct (on_key_g_idle reply g Hbusy) as (text & timer & Htimer & ->).
      eexists. split; [reflexivity |].
      cbn. repeat split; auto.
      * intros _ _. exact Htimer.
      * intros [Habs | Habs]; discriminate.
    + rewrite on_key_g_skipped by (left; reflexivity).
      destruct Hsame as (g' & H & Hrest). exists g'.
      split; [exact H |].
      repeat split; try apply Hrest.
      intros [Habs | Habs]; discriminate.
  - destruct Hsame as (g' & H & Hrest). exists g'.
    split; [exact H |].
    repeat split; try apply Hrest.
    intros [Habs | Habs]; discriminate.
  - destruct Hsame as (g' & H & Hrest). exists g'.
    split; [exact H |].
    repeat split; try apply Hrest.
    intros [Habs | Habs]; discriminate.
Qed.

Lemma handle_events_fields (gemini_available : bool)
    (events : list (event * gemini_reply)) :
  forall g : Game,
  exists g' : Game,
    handle_events gemini_available events g = Ok tt g' /\
    obj (player g') = obj (player g) /\
    mass (player g') = mass (player g) /\
    name (player g') = name (player g) /\
    target_x (player g') = target_x (player g) /\
    target_y (player g') = target_y (player g) /\
    food_list g' = food_list g /\
    camera_x g' = camera_x g /\ camera_y g' = camera_y g /\
    random_state g' = random_state g /\
    gemini_request_in_progress g' = gemini_request_in_progress g /\
    (annotation_ok (player g) -> annotation_ok (player g')) /\
    (running g' = true -> running g = true) /\
    (In QUIT (map fst events) \/ In (KEYDOWN K_ESCAPE) (map fst events) ->
     running g' = false).
Proof.
  induction events as [| [e reply] rest IH]; intros g.
  - exists g. split; [reflexivity |].
    repeat split; auto. intros [[] | []].
  - unfold handle_events in *. cbn [for_each fst snd map]. unfold bind.
    destruct (handle_event_fields gemini_available e reply g)
      as (g1 & -> & Ho & Hm & Hn & Htx & Hty & Hf & Hcx & Hcy & Hrs & Hp
          & Ha & Hrun & Hquit).
    destruct (IH g1)
      as (g2 & -> & Ho2 & Hm2 & Hn2 & Htx2 & Hty2 & Hf2 & Hcx2 & Hcy2 & Hrs2
          & Hp2 & Ha2 & Hrun2 & Hquit2).
    exists g2. split; [reflexivity |].
    repeat split; try congruence; auto.
    intros Hin.
    destruct Hin as [[He | Hin] | [He | Hin]].
    + destruct (running g2); [| reflexivity].
      rewrite Hquit in Hrun2 by (left; exact He).
      symmetry. apply Hrun2. reflexivity.
    + apply Hquit2. left. exact Hin.
    + destruct (running g2); [| reflexivity].
      rewrite Hquit in Hrun2 by (right; exact He).
      symmetry. apply Hrun2. reflexivity.
    + apply Hquit2. right. exact Hin.
Qed.

(** X7. The events of a turn never raise and never touch the simulation:
    the place, the radius, the colour, the mass and the target of the
    player, the food list, the camera and the random source are as before,
    and so is the request flag.  The flag [running] is never set again
    once cleared, and it is cleared when the events contain [QUIT] or the
    escape key, whatever follows them. *)
Theorem events_keep_simulation (gemini_available : bool)
    (events : list (event * gemini_reply)) (g : Game) :
  exists g' : Game,
    handle_events gemini_available events g = Ok tt g' /\
    obj (player g') = obj (player g) /\
    mass (player g') = mass (player g) /\
    target_x (player g') = target_x (player g) /\
    target_y (player g') = target_y (player g) /\
    food_list g' = food_list g /\
    camera_x g' = camera_x g /\ camera_y g' = camera_y g /\
    random_state g' = random_state g /\
    gemini_request_in_progress g' = gemini_request_in_progress g /\
    (running g = false -> running g' = false) /\
    (In QUIT (map fst events) \/ In (KEYDOWN K_ESCAPE) (map fst events) ->
     running g' = false).
Proof.
  destruct (handle_events_fields gemini_available events g)
    as (g' & Hcall & Ho & Hm & _ & Htx & Hty & Hf & Hcx & Hcy & Hrs & Hp
        & _ & Hrun & Hquit).
  exists g'. repeat split; try assumption.
  intros Hoff. destruct (running g') eqn:Hr; [| reflexivity].
  rewrite Hrun in Hoff by reflexivity. discriminate.
Qed.

Lemma events_keep_simulation_witness :
  exists g' : Game,
    handle_events true [(QUIT, Failure); (KEYDOWN K_g, Reply "a cell")] game0
      = Ok tt g' /\
    running g' = false /\
    food_list g' = food_list game0 /\
    mass (player g') = mass (player game0).
Proof.
  destruct (events_keep_simulation true
              [(QUIT, Failure); (KEYDOWN K_g, Reply "a cell")] game0)
    as (g' & Hcall & _ & Hm & _ & _ & Hf & _ & _ & _ & _ & _ & Hquit).
  exists g'. repeat split; try assumption.
  apply Hquit. left. left. reflexivity.
Defined.

(** ** The camera and the effects of a turn *)

Lemma ticked_keeps (dt : R) (p : Player) :
  obj (ticked dt p) = obj p /\ mass (ticked dt p) = mass p /\
  target_x (ticked dt p) = target_x p /\ target_y (ticked dt p) = target_y p.
Proof.
  unfold ticked. destruct (Rgt_dec (description_timer p) 0);
    [destruct (Rle_dec (description_timer p - dt) 0) |];
    repeat split; reflexivity.
Qed.

Lemma updated_place (mouse_x mouse_y dt : R) (g : Game) :
  let p1 := after_move (retargeted (mouse_x + camera_x g)
                          (mouse_y + camera_y g) (player g)) in
  x (player (updated mouse_x mouse_y dt g)) = x p1 /\
  y (player (updated mouse_x mouse_y dt g)) = y p1.
Proof.
  intros p1. unfold updated. fold p1. cbn [player].
  destruct (ticked_keeps dt (fed (food_list g) p1)) as (Ho & _).
  destruct (fed_keeps_place (food_list g) p1) as (Hx & Hy & _).
  change (x (ticked dt (fed (food_list g) p1)))
    with (x (obj (ticked dt (fed (food_list g) p1)))).
  change (y (ticked dt (fed (food_list g) p1)))
    with (y (obj (ticked dt (fed (food_list g) p1)))).
  rewrite Ho. split; assumption.
Qed.

Lemma clamp_below (lo hi v : R) :
  lo <= hi -> v <= lo -> Rmax lo (Rmin hi v) = lo.
Proof.
  intros Hle Hv. rewrite Rmin_right by lra. apply Rmax_left. exact Hv.
Qed.

(** X8. After the state updates of a turn the camera lies between
    [-WORLD_WIDTH/2 + SCREEN_WIDTH/2] and [WORLD_WIDTH/2 - SCREEN_WIDTH/2]
    (and likewise in [y]).  The player is at the middle of the screen,
    [x - camera_x = SCREEN_WIDTH/2], exactly while
    [-WORLD_WIDTH/2 + SCREEN_WIDTH <= x <= WORLD_WIDTH/2]; further left the
    camera stays at its lower bound and the player is left of the
    middle. *)
Theorem camera_follows_player (mouse_x mouse_y dt : R) (g : Game)
    (Hradius : radius (player g) <> 0) (Hmass : 0 <= mass (player g)) :
  exists g' : Game,
    update_game_state mouse_x mouse_y dt g = Ok tt g' /\
    - WORLD_WIDTH / 2 + SCREEN_WIDTH / 2 <= camera_x g'
      <= WORLD_WIDTH / 2 - SCREEN_WIDTH / 2 /\
    - WORLD_HEIGHT / 2 + SCREEN_HEIGHT / 2 <= camera_y g'
      <= WORLD_HEIGHT / 2 - SCREEN_HEIGHT / 2 /\
    (- WORLD_WIDTH / 2 + SCREEN_WIDTH <= x (player g') <= WORLD_WIDTH / 2 ->
     x (player g') - camera_x g' = SCREEN_WIDTH / 2) /\
    (- WORLD_HEIGHT / 2 + SCREEN_HEIGHT <= y (player g') <= WORLD_HEIGHT / 2 ->
     y (player g') - camera_y g' = SCREEN_HEIGHT / 2) /\
    (x (player g') < - WORLD_WIDTH / 2 + SCREEN_WIDTH ->
     camera_x g' = - WORLD_WIDTH / 2 + SCREEN_WIDTH / 2 /\
     x (player g') - camera_x g' < SCREEN_WIDTH / 2) /\
    (y (player g') < - WORLD_HEIGHT / 2 + SCREEN_HEIGHT ->
     camera_y g' = - WORLD_HEIGHT / 2 + SCREEN_HEIGHT / 2 /\
     y (player g') - camera_y g' < SCREEN_HEIGHT / 2).
Proof.
  exists (updated mouse_x mouse_y dt g).
  split; [apply update_game_state_returns; assumption |].
  destruct (updated_place mouse_x mouse_y dt g) as [Hx Hy].
  rewrite Hx, Hy. unfold updated. cbn [camera_x camera_y].
  set (p1 := after_move _).
  unfold WORLD_WIDTH, WORLD_HEIGHT, SCREEN_WIDTH, SCREEN_HEIGHT.
  split; [apply clamp_bounds; lra |].
  split; [apply clamp_bounds; lra |].
  split; [intros H; rewrite clamp_inside by lra; lra |].
  split; [intros H; rewrite clamp_inside by lra; lra |].
  split; intros H; rewrite clamp_below by lra; split; lra.
Qed.

Lemma camera_follows_player_witness :
  exists g' : Game,
    update_game_state 400 300 0 game0 = Ok tt g' /\
    - WORLD_WIDTH / 2 + SCREEN_WIDTH / 2 <= camera_x g'
      <= WORLD_WIDTH / 2 - SCREEN_WIDTH / 2 /\
    - WORLD_HEIGHT / 2 + SCREEN_HEIGHT / 2 <= camera_y g'
      <= WORLD_HEIGHT / 2 - SCREEN_HEIGHT / 2.
Proof.
  destruct (camera_follows_player 400 300 0 game0)
    as (g' & Hcall & Hcx & Hcy & _).
  - unfold game0. cbn [player]. settings. lra.
  - unfold game0. cbn [player]. settings. lra.
  - exists g'. repeat split; try apply Hcx; try apply Hcy. exact Hcall.
Defined.

Lemma target_within_one (p : Player) :
  (target_x p - x p) ^ 2 + (target_y p - y p) ^ 2 <= 1 ->
  after_move p = p.
Proof.
  intros Hsq. unfold after_move.
  destruct (Rgt_dec (target_distance p) 1) as [Hfar | _]; [| reflexivity].
  exfalso. unfold target_distance in Hfar.
  assert (sqrt ((target_x p - x p) ^ 2 + (target_y p - y p) ^ 2) <= 1).
  { apply sqrt_le_sq; [apply sum_sqr_nonneg | lra | lra]. }
  lra.
Qed.

(** X9. The state updates of a turn, on a player of non-zero radius and
    non-negative mass, return.  The target becomes the mouse position
    shifted by the camera of the turn before; the mass does not go down;
    the number of foods, the flag [running] and the request flag are as
    before; and a mouse within one unit of the place where the player is
    leaves the player where it is. *)
Theorem update_game_state_effects (mouse_x mouse_y dt : R) (g : Game)
    (Hradius : radius (player g) <> 0) (Hmass : 0 <= mass (player g)) :
  exists g' : Game,
    update_game_state mouse_x mouse_y dt g = Ok tt g' /\
    target_x (player g') = mouse_x + camera_x g /\
    target_y (player g') = mouse_y + camera_y g /\
    mass (player g) <= mass (player g') /\
    length (food_list g') = length (food_list g) /\
    running g' = running g /\
    gemini_request_in_progress g' = gemini_request_in_progress g /\
    ((mouse_x + camera_x g - x (player g)) ^ 2
     + (mouse_y + camera_y g - y (player g)) ^ 2 <= 1 ->
     x (player g') = x (player g) /\ y (player g') = y (player g)).
Proof.
  exists (updated mouse_x mouse_y dt g).
  split; [apply update_game_state_returns; assumption |].
  destruct (updated_place mouse_x mouse_y dt g) as [Hx Hy].
  set (p0 := retargeted (mouse_x + camera_x g) (mouse_y + camera_y g) (player g)) in *.
  set (p1 := after_move p0) in *.
  assert (Hfields :
    player (updated mouse_x mouse_y dt g) = ticked dt (fed (food_list g) p1))
    by reflexivity.
  destruct (ticked_keeps dt (fed (food_list g) p1)) as (_ & Hm & Htx & Hty).
  destruct (fed_keeps_place (food_list g) p1) as (_ & _ & _ & _ & Hftx & Hfty & _).
  destruct (after_move_size p0) as (_ & Hm0 & Htx0 & Hty0 & _).
  fold p1 in Hm0, Htx0, Hty0.
  split; [rewrite Hfields, Htx, Hftx, Htx0; reflexivity |].
  split; [rewrite Hfields, Hty, Hfty, Hty0; reflexivity |].
  split.
  { rewrite Hfields, Hm, fed_mass, Hm0.
    pose proof (total_area_nonneg (eaten_foods (food_list g) p1)).
    change (mass p0) with (mass (player g)). lra. }
  split.
  { unfold updated. cbn [food_list]. fold p0. fold p1.
    rewrite length_app, fresh_foods_length. apply eaten_uneaten_length. }
  split; [reflexivity |]. split; [reflexivity |].
  intros Hnear. rewrite Hx, Hy.
  subst p1. rewrite (target_within_one p0) by exact Hnear.
  split; reflexivity.
Qed.

Lemma update_game_state_effects_witness :
  exists g' : Game,
    update_game_state 400 300 0 game0 = Ok tt g' /\
    x (player g') = x (player game0) /\ y (player g') = y (player game0) /\
    length (food_list g') = length (food_list game0).
Proof.
  destruct (update_game_state_effects 400 300 0 game0)
    as (g' & Hcall & _ & _ & _ & Hlen & _ & _ & Hstill).
  - unfold game0. cbn [player]. settings. lra.
  - unfold game0. cbn [player]. settings. lra.
  - exists g'. destruct Hstill as [Hx Hy].
    + unfold game0. cbn [player camera_x camera_y]. settings. lra.
    + repeat split; assumption.
Defined.

(** ** What the loop of [main] keeps *)

Lemma radius_of_mass_large (m : R) :
  MIN_PLAYER_RADIUS ^ 2 <= m -> radius_of_mass m = sqrt m.
Proof.
  intros Hm. unfold radius_of_mass, MIN_PLAYER_RADIUS in *.
  apply Rmax_left. apply sqrt_ge_sq; lra.
Qed.

Lemma fed_radius (l : list Food) :
  forall p : Player,
    radius p = radius_of_mass (mass p) ->
    radius (fed l p) = radius_of_mass (mass (fed l p)).
Proof.
  induction l as [| f rest IH]; intros p Hr; cbn [fed]; [exact Hr |].
  destruct (in_reach p f); [| apply IH; exact Hr].
  apply IH. reflexivity.
Qed.

Lemma uneaten_all (P : Food -> Prop) (l : list Food) :
  forall p : Player, Forall P l -> Forall P (uneaten l p).
Proof.
  induction l as [| f rest IH]; intros p Hall; cbn [uneaten];
    [constructor |].
  inversion Hall as [| ? ? Hf Hrest]; subst.
  destruct (in_reach p f); [| constructor; [exact Hf |]]; apply IH; exact Hrest.
Qed.

Lemma ticked_annotation (dt : R) (p : Player) :
  annotation_ok p -> annotation_ok (ticked dt p).
Proof.
  unfold annotation_ok, ticked. intros Hok.
  destruct (Rgt_dec (description_timer p) 0) as [Hpos | Hnot]; [| exact Hok].
  destruct (Rle_dec (description_timer p - dt) 0) as [Hend | Hleft]; cbn.
  - intros Habs. contradiction Habs. reflexivity.
  - intros _. lra.
Qed.

Lemma invariant_mass (g : Game) :
  game_invariant g ->
  INITIAL_PLAYER_RADIUS ^ 2 <= mass (player g) /\
  INITIAL_PLAYER_RADIUS <= radius (player g).
Proof.
  intros ((n & Hn) & Hr & _).
  pose proof (pos_INR n) as Hpos.
  unfold INITIAL_PLAYER_RADIUS, FOOD_RADIUS in *.
  assert (Hm : 20 ^ 2 <= mass (player g)) by (rewrite Hn; nra).
  split; [exact Hm |].
  rewrite Hr. apply sqrt_ge_sq; lra.
Qed.

Lemma updated_invariant (mouse_x mouse_y dt : R) (g : Game) :
  game_invariant g -> game_invariant (updated mouse_x mouse_y dt g).
Proof.
  intros Hinv. destruct (invariant_mass g Hinv) as [Hmass Hrad].
  destruct Hinv as ((n & Hn) & Hr & Hlen & Hfoods & Hidle & Hann & _ & _).
  set (p0 := retargeted (mouse_x + camera_x g) (mouse_y + camera_y g) (player g)).
  set (p1 := after_move p0).
  assert (Hfields :
    player (updated mouse_x mouse_y dt g) = ticked dt (fed (food_list g) p1))
    by reflexivity.
  destruct (ticked_keeps dt (fed (food_list g) p1)) as (Ho & Hm & _).
  destruct (after_move_size p0) as (Hr1 & Hm1 & _ & _ & Hd1 & Ht1).
  fold p1 in Hr1, Hm1, Hd1, Ht1.
  change (mass p0) with (mass (player g)) in Hm1.
  change (radius p0) with (radius (player g)) in Hr1.
  assert (Hall : Forall (fun f : Food => radius f = FOOD_RADIUS) (food_list g)).
  { eapply Forall_impl; [| exact Hfoods]. cbn. intros f [_ Hf]. exact Hf. }
  assert (Hgain : mass (fed (food_list g) p1)
                  = mass (player g)
                    + FOOD_RADIUS ^ 2 * INR (length (eaten_foods (food_list g) p1))).
  { rewrite fed_mass, Hm1.
    rewrite (total_area_uniform _ (eaten_foods_all _ _ p1 Hall)). reflexivity. }
  unfold INITIAL_PLAYER_RADIUS, FOOD_RADIUS, MIN_PLAYER_RADIUS in *.
  pose proof (pos_INR (length (eaten_foods (food_list g) p1))) as Hk.
  unfold game_invariant. rewrite Hfields.
  split; [| split; [| split; [| split; [| split; [| split; [| split]]]]]].
  - exists (n + length (eaten_foods (food_list g) p1))%nat.
    rewrite Hm, Hgain, Hn, plus_INR.
    unfold INITIAL_PLAYER_RADIUS, FOOD_RADIUS. lra.
  - change (radius (ticked dt (fed (food_list g) p1)))
      with (radius (obj (ticked dt (fed (food_list g) p1)))).
    rewrite Ho, Hm.
    rewrite fed_radius.
    + apply radius_of_mass_large. unfold MIN_PLAYER_RADIUS. rewrite Hgain. nra.
    + rewrite Hr1, Hm1, Hr. symmetry. apply radius_of_mass_large.
      unfold MIN_PLAYER_RADIUS. lra.
  - unfold updated. cbn [food_list]. fold p0. fold p1.
    rewrite length_app, fresh_foods_length, eaten_uneaten_length. exact Hlen.
  - unfold updated. cbn [food_list]. fold p0. fold p1.
    apply Forall_app. split; [apply uneaten_all; exact Hfoods |].
    apply fresh_foods_created.
  - exact Hidle.
  - apply ticked_annotation.
    destruct (fed_keeps_place (food_list g) p1) as (_ & _ & _ & _ & _ & _ & Hd & Ht).
    unfold annotation_ok. rewrite Hd, Ht, Hd1, Ht1. exact Hann.
  - unfold updated. cbn [camera_x].
    apply clamp_bounds. unfold WORLD_WIDTH, SCREEN_WIDTH. lra.
  - unfold updated. cbn [camera_y].
    apply clamp_bounds. unfold WORLD_HEIGHT, SCREEN_HEIGHT. lra.
Qed.

Lemma frame_invariant (gemini_available : bool) (i : frame_input) (g : Game) :
  game_invariant g ->
  exists g' : Game,
    frame gemini_available i g = Ok tt g' /\ game_invariant g'.
Proof.
  intros Hinv.
  destruct (handle_events_fields gemini_available (frame_events i) g)
    as (g1 & Hcall & Ho & Hm & _ & _ & _ & Hf & Hcx & Hcy & _ & Hp & Ha & _).
  assert (Hinv1 : game_invariant g1).
  { destruct Hinv as (Hn & Hr & Hlen & Hfoods & Hidle & Hann & Hcamx & Hcamy).
    unfold game_invariant.
    change (radius (player g1)) with (radius (obj (player g1))).
    rewrite Ho, Hm, Hf, Hcx, Hcy, Hp.
    repeat split; try assumption; try apply Hcamx; try apply Hcamy.
    apply Ha. exact Hann. }
  destruct (invariant_mass g1 Hinv1) as [Hmass Hrad].
  unfold INITIAL_PLAYER_RADIUS in *.
  exists (updated (frame_mouse_x i) (frame_mouse_y i) (frame_dt i) g1).
  split; [| apply updated_invariant; exact Hinv1].
  unfold frame, bind. rewrite Hcall.
  apply update_game_state_returns; lra.
Qed.

Lemma main_loop_invariant (gemini_available : bool) (inputs : list frame_input) :
  forall g : Game,
    game_invariant g ->
    exists g' : Game,
      main_loop gemini_available inputs g = Ok tt g' /\ game_invariant g'.
Proof.
  induction inputs as [| i rest IH]; intros g Hinv.
  - exists g. split; [reflexivity | exact Hinv].
  - cbn [main_loop]. unfold bind at 1, get_game, get.
    destruct (running g).
    + destruct (frame_invariant gemini_available i g Hinv) as (g1 & Hcall & Hinv1).
      unfold bind. rewrite Hcall. apply IH. exact Hinv1.
    + exists g. split; [reflexivity | exact Hinv].
Qed.

Lemma main_init_returns (rs : RandomState) :
  exists c : Color,
    main_init rs
    = Ok (mkGame true (Player_init "MyCell" c)
            (fresh_foods FOOD_COUNT (advance 3 rs))
            (0 - SCREEN_WIDTH / 2) (0 - SCREEN_HEIGHT / 2)
            false EmptyString (skip_foods FOOD_COUNT (advance 3 rs)))
         (skip_foods FOOD_COUNT (advance 3 rs)).
Proof.
  eexists. unfold main_init. unfold bind at 1 2 3.
  unfold randint, bind, random, ret.
  cbn [tape cursor sample].
  change (mkRandomState (tape rs) (S (S (S (cursor rs))))) with (advance 3 rs).
  rewrite spawn_food_returns. unfold get. reflexivity.
Qed.

Lemma initial_invariant (c : Color) (rs : RandomState) :
  game_invariant
    (mkGame true (Player_init "MyCell" c) (fresh_foods FOOD_COUNT rs)
       (0 - SCREEN_WIDTH / 2) (0 - SCREEN_HEIGHT / 2)
       false EmptyString (skip_foods FOOD_COUNT rs)).
Proof.
  unfold game_invariant.
  cbn [player food_list camera_x camera_y gemini_request_in_progress].
  split; [| split; [| split; [| split; [| split; [| split; [| split]]]]]].
  - exists 0%nat. settings. cbn [INR]. lra.
  - settings. replace (20 ^ 2) with (20 * 20) by lra.
    rewrite sqrt_square by lra. reflexivity.
  - apply fresh_foods_length.
  - apply fresh_foods_created.
  - reflexivity.
  - unfold annotation_ok. settings. intros Habs. contradiction Habs. reflexivity.
  - unfold WORLD_WIDTH, SCREEN_WIDTH. lra.
  - unfold WORLD_HEIGHT, SCREEN_HEIGHT. lra.
Qed.

(** X10. [main] never raises, whatever the random source, the events, the
    answers of the text service, the mouse and the clock give, and
    whenever it is observed between two turns: the mass is 400 plus 25
    for a whole number of eaten foods, the radius is the square root of
    the mass and at least 20, there are [FOOD_COUNT] foods, each of
    radius [FOOD_RADIUS] with its centre in the world, no request is in
    progress, an annotation with a text has time left, and the camera is
    within its bounds. *)
Theorem main_keeps_invariant (gemini_available : bool)
    (inputs : list frame_input) (rs : RandomState) :
  exists (g : Game) (rs' : RandomState),
    main gemini_available inputs rs = Ok (Ok tt g) rs' /\
    game_invariant g /\
    INITIAL_PLAYER_RADIUS ^ 2 <= mass (player g) /\
    INITIAL_PLAYER_RADIUS <= radius (player g).
Proof.
  destruct (main_init_returns rs) as (c & Hinit).
  destruct (main_loop_invariant gemini_available inputs _
              (initial_invariant c (advance 3 rs))) as (g & Hloop & Hinv).
  exists g. eexists.
  split.
  - unfold main, bind. rewrite Hinit. unfold ret. rewrite Hloop. reflexivity.
  - split; [exact Hinv | apply invariant_mass; exact Hinv].
Qed.

(** ** Drawing an object *)

Lemma py_le_true (a b : R) : py_le a b = true <-> a <= b.
Proof.
  unfold py_le. destruct (Rle_dec a b); split; intros; try discriminate;
    try contradiction; auto.
Qed.

Lemma py_le_false (a b : R) : py_le a b = false <-> b < a.
Proof.
  unfold py_le. destruct (Rle_dec a b); split; intros; try discriminate;
    try lra; auto.
Qed.

Lemma GameObject_draw_shown (o : GameObject) (camera_x camera_y : R)
    (surface : Surface) :
  - radius o <= x o - camera_x <= SCREEN_WIDTH + radius o ->
  - radius o <= y o - camera_y <= SCREEN_HEIGHT + radius o ->
  GameObject_draw o camera_x camera_y surface
  = Ok tt (surface ++ [circle_of o camera_x camera_y]).
Proof.
  intros [Hx1 Hx2] [Hy1 Hy2]. unfold GameObject_draw.
  rewrite !(proj2 (py_le_true _ _)) by assumption. reflexivity.
Qed.

Lemma GameObject_draw_culled (o : GameObject) (camera_x camera_y : R)
    (surface : Surface) :
  x o - camera_x < - radius o \/ SCREEN_WIDTH + radius o < x o - camera_x \/
  y o - camera_y < - radius o \/ SCREEN_HEIGHT + radius o < y o - camera_y ->
  GameObject_draw o camera_x camera_y surface = Ok tt surface.
Proof.
  intros Hout. unfold GameObject_draw.
  destruct Hout as [H | [H | [H | H]]];
    apply py_le_false in H; rewrite H;
    rewrite ?Bool.andb_false_r, ?Bool.andb_false_l; reflexivity.
Qed.

Lemma within_radius (a r : R) : 0 <= r -> a ^ 2 <= r ^ 2 -> - r <= a <= r.
Proof.
  intros Hr Hsq. split.
  - destruct (Rle_dec (- r) a) as [H | H]; [exact H |].
    assert (0 < (- r - a) * (r - a)) by (apply Rmult_lt_0_compat; lra).
    nra.
  - destruct (Rle_dec a r) as [H | H]; [exact H |].
    assert (0 < (a - r) * (a + r)) by (apply Rmult_lt_0_compat; lra).
    nra.
Qed.

(** X11. [GameObject.draw] never hides an object that can be seen: when
    the radius is not negative and some point of the screen lies within
    the radius of the centre, the circle is drawn, after what was drawn
    before.  An object whose centre is further than its radius beyond an
    edge of the screen is not drawn, and the surface is as before.  No
    other outcome exists. *)
Theorem draw_shows_what_is_visible (o : GameObject) (camera_x camera_y : R)
    (surface : Surface) (Hradius : 0 <= radius o) :
  (forall px py : R,
     0 <= px <= SCREEN_WIDTH -> 0 <= py <= SCREEN_HEIGHT ->
     (px - (x o - camera_x)) ^ 2 + (py - (y o - camera_y)) ^ 2
       <= radius o ^ 2 ->
     GameObject_draw o camera_x camera_y surface
     = Ok tt (surface ++ [circle_of o camera_x camera_y])) /\
  (x o - camera_x < - radius o \/ SCREEN_WIDTH + radius o < x o - camera_x \/
   y o - camera_y < - radius o \/ SCREEN_HEIGHT + radius o < y o - camera_y ->
   GameObject_draw o camera_x camera_y surface = Ok tt surface) /\
  (GameObject_draw o camera_x camera_y surface = Ok tt surface \/
   GameObject_draw o camera_x camera_y surface
   = Ok tt (surface ++ [circle_of o camera_x camera_y])).
Proof.
  split; [| split].
  - intros px py Hpx Hpy Hin.
    pose proof (pow2_ge_0 (px - (x o - camera_x))) as Hsx.
    pose proof (pow2_ge_0 (py - (y o - camera_y))) as Hsy.
    destruct (within_radius (px - (x o - camera_x)) (radius o) Hradius)
      as [Hx1 Hx2]; [lra |].
    destruct (within_radius (py - (y o - camera_y)) (radius o) Hradius)
      as [Hy1 Hy2]; [lra |].
    apply GameObject_draw_shown; split; lra.
  - apply GameObject_draw_culled.
  - unfold GameObject_draw.
    match goal with |- context [if ?c then _ else _] => destruct c end;
      [right | left]; reflexivity.
Qed.

Lemma draw_shows_what_is_visible_witness :
  GameObject_draw player0 (-400) (-300) []
  = Ok tt [circle_of player0 (-400) (-300)] /\
  GameObject_draw (food_at 900 0) (-400) (-300) [] = Ok tt [].
Proof.
  assert (Hr : 0 <= radius player0) by (settings; lra).
  assert (Hf : 0 <= radius (food_at 900 0)) by (settings; lra).
  split.
  - apply (proj1 (draw_shows_what_is_visible player0 (-400) (-300) [] Hr)
             400 300);
      unfold SCREEN_WIDTH, SCREEN_HEIGHT; settings; lra.
  - apply (draw_shows_what_is_visible (food_at 900 0) (-400) (-300) [] Hf).
    right. left. unfold SCREEN_WIDTH. settings. lra.
Defined.

(** ** The label under the player *)

(** X12. [Player.draw] always draws the name last but for the annotation.
    The annotation is drawn exactly when its text is not empty and its
    timer is positive; its rectangle has the size pygame gave to the text
    and never starts left of or above the screen, and a text that is not
    larger than the screen lies inside it whole, wherever the player
    is. *)
Theorem description_label_on_screen
    (text_rect : Font -> string -> R * R -> Rect)
    (self : Player) (camera_x camera_y : R) (surface : Surface) :
  exists (body : Surface) (name_rect : Rect),
    (py_bool_str (gemini_description self) = false \/
     description_timer self <= 0 ->
     Player_draw text_rect self camera_x camera_y surface
     = Ok tt (body ++ [blit_text font (name self) WHITE name_rect])) /\
    (py_bool_str (gemini_description self) = true ->
     0 < description_timer self ->
     exists r r0 : Rect,
       Player_draw text_rect self camera_x camera_y surface
       = Ok tt (body ++ [blit_text font (name self) WHITE name_rect;
                         blit_text small_font (gemini_description self)
                           WHITE r]) /\
       r0 = text_rect small_font (gemini_description self)
              (IZR (py_int (x self - camera_x)),
               IZR (py_int (y self - camera_y)) + radius self + 15) /\
       rect_width r = rect_width r0 /\ rect_height r = rect_height r0 /\
       0 <= rect_x r /\ 0 <= rect_y r /\
       (rect_width r0 <= SCREEN_WIDTH ->
        rect_x r + rect_width r <= SCREEN_WIDTH) /\
       (rect_height r0 <= SCREEN_HEIGHT ->
        rect_y r + rect_height r <= SCREEN_HEIGHT)).
Proof.
  unfold Player_draw.
  set (name_rect := text_rect font (name self) _).
  set (r0 := text_rect small_font (gemini_description self) _).
  destruct (GameObject_draw self camera_x camera_y surface)
    as [[] body | e body] eqn:Hdraw.
  2:{ exfalso. unfold GameObject_draw in Hdraw.
      destruct (_ && _)%bool in Hdraw; discriminate. }
  exists body, name_rect. unfold bind at 1 3. rewrite Hdraw.
  unfold bind, emit, modify. split.
  - intros [Hempty | Htimer].
    + rewrite Hempty. reflexivity.
    + unfold py_gt. destruct (Rgt_dec (description_timer self) 0); [lra |].
      rewrite Bool.andb_false_r. reflexivity.
  - intros Htext Htimer. rewrite Htext. unfold py_gt.
    destruct (Rgt_dec (description_timer self) 0); [| lra].
    cbn [andb].
    eexists. exists r0. split.
    + rewrite <- app_assoc. reflexivity.
    + cbn [rect_x rect_y rect_width rect_height set_rect_x set_rect_y].
      rewrite !py_max_Rmax, !py_min_Rmin.
      split; [reflexivity |]. split; [reflexivity |]. split; [reflexivity |].
      split; [apply Rmax_l |]. split; [apply Rmax_l |].
      split; intros Hfits.
      * pose proof (clamp_bounds 0 (SCREEN_WIDTH - rect_width r0) (rect_x r0)).
        lra.
      * pose proof (clamp_bounds 0 (SCREEN_HEIGHT - rect_height r0) (rect_y r0)).
        lra.
Qed.

Lemma description_label_on_screen_witness :
  exists (body : Surface) (name_rect r r0 : Rect),
    Player_draw sample_text_rect player_hello 500 (-300) []
    = Ok tt (body ++ [blit_text font (name player_hello) WHITE name_rect;
                      blit_text small_font (gemini_description player_hello)
                        WHITE r]) /\
    0 <= rect_x r /\ 0 <= rect_y r.
Proof.
  destruct (description_label_on_screen sample_text_rect player_hello 500 (-300) [])
    as (body & name_rect & _ & Hdrawn).
  destruct Hdrawn as (r & r0 & Hcall & _ & _ & _ & Hx & Hy & _).
  - reflexivity.
  - cbn. lra.
  - exists body, name_rect, r, r0. repeat split; assumption.
Defined.

(** ** [int], [range] and the loops of [draw_grid] *)

Lemma py_int_near (v : R) : v - 1 < IZR (py_int v) < v + 1.
Proof.
  unfold py_int. destruct (Rle_dec 0 v) as [Hpos | Hneg].
  - destruct (base_Int_part v) as [Hle Hgt]. lra.
  - destruct (base_Int_part (- v)) as [Hle Hgt]. rewrite opp_IZR. lra.
Qed.

Lemma py_range_values (start stop step : Z) :
  step <> 0%Z -> py_range start stop step = inr (range_values start stop step).
Proof.
  intros Hstep. unfold range_values, py_range.
  destruct (Z.eqb_spec step 0); [contradiction | reflexivity].
Qed.

(** The values of a range with a positive step: the numbers
    [start + j * step] below [stop]. *)
Lemma range_values_positive (start stop step m : Z) :
  (0 < step)%Z ->
  In m (range_values start stop step) <->
  exists j : nat, m = (start + Z.of_nat j * step)%Z /\ (m < stop)%Z.
Proof.
  intros Hstep. unfold range_values, py_range.
  destruct (Z.eqb_spec step 0) as [Hz | _]; [lia |].
  destruct (Z.ltb_spec 0 step) as [_ | Hn]; [| lia].
  rewrite in_map_iff.
  destruct (Z.ltb_spec start stop) as [Hlt | Hge].
  - set (count := ((stop - start + step - 1) / step)%Z).
    assert (Hcount : forall j : nat,
               (Z.of_nat j < count)%Z <-> (start + Z.of_nat j * step < stop)%Z).
    { intros j. unfold count. split; intros Hj.
      - assert (Hmul : (step * (Z.of_nat j + 1) <= stop - start + step - 1)%Z).
        { eapply Z.le_trans; [| apply (Z.mul_div_le _ step); lia].
          apply Z.mul_le_mono_nonneg_l; lia. }
        lia.
      - assert (Hlow : (Z.of_nat j + 1 <= (stop - start + step - 1) / step)%Z).
        { apply Z.div_le_lower_bound; lia. }
        lia. }
    assert (Hnn : (0 <= count)%Z) by (apply Z.div_pos; lia).
    split.
    + intros (j & <- & Hin). apply in_seq in Hin.
      exists j. split; [reflexivity |]. apply Hcount. lia.
    + intros (j & -> & Hj). exists j. split; [reflexivity |].
      apply in_seq. apply Hcount in Hj. lia.
  - cbn [Z.to_nat seq]. split.
    + intros (j & _ & []).
    + intros (j & -> & Hj). exfalso. nia.
Qed.

Lemma for_each_lines {A : Type} (l : list A) (keep : A -> bool)
    (line : A -> draw_call) :
  forall surface : Surface,
    for_each l (fun a : A => if keep a then emit (line a) else ret tt) surface
    = Ok tt (surface ++ flat_map (fun a : A => if keep a then [line a] else []) l).
Proof.
  induction l as [| a rest IH]; intros surface; cbn [for_each flat_map].
  - rewrite app_nil_r. reflexivity.
  - unfold bind. destruct (keep a).
    + unfold emit, modify. rewrite IH. rewrite <- app_assoc. reflexivity.
    + unfold ret. rewrite IH. reflexivity.
Qed.

Lemma draw_grid_returns (camera_x camera_y : R) (grid_size : Z)
    (color : Color) (surface : Surface) :
  grid_size <> 0%Z ->
  draw_grid camera_x camera_y grid_size color surface
  = Ok tt
      (surface
       ++ vertical_lines color camera_x
            (range_values
               (first_grid (py_int (camera_x - SCREEN_WIDTH / 2)) grid_size)
               (py_int (camera_x + SCREEN_WIDTH / 2) + grid_size) grid_size)
       ++ horizontal_lines color camera_y
            (range_values
               (first_grid (py_int (camera_y - SCREEN_HEIGHT / 2)) grid_size)
               (py_int (camera_y + SCREEN_HEIGHT / 2) + grid_size) grid_size)).
Proof.
  intros Hstep.
  assert (Hnz : IZR grid_size <> 0) by (apply not_0_IZR; exact Hstep).
  unfold draw_grid.
  unfold bind at 1, lift at 1. rewrite (py_div_nonzero _ _ Hnz).
  unfold bind at 1, lift at 1. rewrite (py_div_nonzero _ _ Hnz).
  fold (first_grid (py_int (camera_x - SCREEN_WIDTH / 2)) grid_size).
  fold (first_grid (py_int (camera_y - SCREEN_HEIGHT / 2)) grid_size).
  unfold bind at 1, lift at 1. rewrite (py_range_values _ _ _ Hstep).
  unfold bind at 1.
  rewrite (for_each_lines _
             (fun xw : Z => (py_le (- WORLD_WIDTH / 2) (IZR xw)
                             && py_le (IZR xw) (WORLD_WIDTH / 2))%bool)
             (vertical_line color camera_x)).
  unfold bind at 1, lift at 1. rewrite (py_range_values _ _ _ Hstep).
  rewrite (for_each_lines _
             (fun yw : Z => (py_le (- WORLD_HEIGHT / 2) (IZR yw)
                             && py_le (IZR yw) (WORLD_HEIGHT / 2))%bool)
             (horizontal_line color camera_y)).
  rewrite <- app_assoc. reflexivity.
Qed.

Lemma first_grid_before (start grid_size : Z) :
  (0 < grid_size)%Z ->
  (first_grid start grid_size < start)%Z /\
  exists k : Z, first_grid start grid_size = (k * grid_size)%Z.
Proof.
  intros Hstep. split.
  - apply lt_IZR. unfold first_grid.
    rewrite mult_IZR, minus_IZR.
    assert (Hg : 0 < IZR grid_size) by (apply IZR_lt; exact Hstep).
    destruct (py_int_near (IZR start / IZR grid_size)) as [_ Hup].
    assert (Hq : IZR start / IZR grid_size * IZR grid_size = IZR start)
      by (field; lra).
    nra.
  - eexists. reflexivity.
Qed.

Lemma vertical_lines_in (color : Color) (camera_x : R) (xs : list Z)
    (c : draw_call) :
  In c (vertical_lines color camera_x xs) <->
  exists xw : Z,
    In xw xs /\ - WORLD_WIDTH / 2 <= IZR xw <= WORLD_WIDTH / 2 /\
    c = vertical_line color camera_x xw.
Proof.
  unfold vertical_lines. rewrite in_flat_map. split.
  - intros (xw & Hin & Hc). exists xw.
    destruct (py_le (- WORLD_WIDTH / 2) (IZR xw)) eqn:H1;
      destruct (py_le (IZR xw) (WORLD_WIDTH / 2)) eqn:H2;
      cbn [andb] in Hc; try contradiction.
    destruct Hc as [<- | []].
    apply py_le_true in H1. apply py_le_true in H2.
    repeat split; assumption.
  - intros (xw & Hin & [H1 H2] & ->). exists xw. split; [exact Hin |].
    rewrite (proj2 (py_le_true _ _) H1), (proj2 (py_le_true _ _) H2).
    left. reflexivity.
Qed.

Lemma horizontal_lines_in (color : Color) (camera_y : R) (ys : list Z)
    (c : draw_call) :
  In c (horizontal_lines color camera_y ys) <->
  exists yw : Z,
    In yw ys /\ - WORLD_HEIGHT / 2 <= IZR yw <= WORLD_HEIGHT / 2 /\
    c = horizontal_line color camera_y yw.
Proof.
  unfold horizontal_lines. rewrite in_flat_map. split.
  - intros (yw & Hin & Hc). exists yw.
    destruct (py_le (- WORLD_HEIGHT / 2) (IZR yw)) eqn:H1;
      destruct (py_le (IZR yw) (WORLD_HEIGHT / 2)) eqn:H2;
      cbn [andb] in Hc; try contradiction.
    destruct Hc as [<- | []].
    apply py_le_true in H1. apply py_le_true in H2.
    repeat split; assumption.
  - intros (yw & Hin & [H1 H2] & ->). exists yw. split; [exact Hin |].
    rewrite (proj2 (py_le_true _ _) H1), (proj2 (py_le_true _ _) H2).
    left. reflexivity.
Qed.

(** X13. [draw_grid] with a grid size of zero raises [ZeroDivisionError]
    before it draws.  With a positive grid size it returns and only adds
    lines: each is the vertical line of a multiple of the grid size, or
    the horizontal line of one, inside the world; and every multiple of
    the grid size between [int(camera_x - SCREEN_WIDTH/2)] and
    [int(camera_x + SCREEN_WIDTH/2)] that is inside the world has its
    vertical line, and likewise for the horizontal lines. *)
Theorem draw_grid_lines (camera_x camera_y : R) (grid_size : Z)
    (color : Color) (surface : Surface) :
  (grid_size = 0%Z ->
   draw_grid camera_x camera_y grid_size color surface
   = Raised ZeroDivisionError surface) /\
  ((0 < grid_size)%Z ->
   exists added : Surface,
     draw_grid camera_x camera_y grid_size color surface
     = Ok tt (surface ++ added) /\
     (forall c : draw_call, In c added ->
        exists k : Z,
          (- WORLD_WIDTH / 2 <= IZR (k * grid_size) <= WORLD_WIDTH / 2 /\
           c = vertical_line color camera_x (k * grid_size)) \/
          (- WORLD_HEIGHT / 2 <= IZR (k * grid_size) <= WORLD_HEIGHT / 2 /\
           c = horizontal_line color camera_y (k * grid_size))) /\
     (forall k : Z,
        (py_int (camera_x - SCREEN_WIDTH / 2) <= k * grid_size
         <= py_int (camera_x + SCREEN_WIDTH / 2))%Z ->
        - WORLD_WIDTH / 2 <= IZR (k * grid_size) <= WORLD_WIDTH / 2 ->
        In (vertical_line color camera_x (k * grid_size)) added) /\
     (forall k : Z,
        (py_int (camera_y - SCREEN_HEIGHT / 2) <= k * grid_size
         <= py_int (camera_y + SCREEN_HEIGHT / 2))%Z ->
        - WORLD_HEIGHT / 2 <= IZR (k * grid_size) <= WORLD_HEIGHT / 2 ->
        In (horizontal_line color camera_y (k * grid_size)) added)).
Proof.
  split.
  - intros ->. unfold draw_grid, bind at 1, lift at 1, py_div.
    destruct (Req_dec_T 0 0) as [_ | Hn]; [reflexivity | contradiction Hn; reflexivity].
  - intros Hstep.
    assert (Hnz : grid_size <> 0%Z) by lia.
    eexists. split; [apply draw_grid_returns; exact Hnz |].
    assert (Hcover : forall (start stop k : Z),
      (start <= k * grid_size <= stop)%Z ->
      In (k * grid_size)%Z
        (range_values (first_grid start grid_size) (stop + grid_size) grid_size)).
    { intros start stop k [Hlo Hhi].
      destruct (first_grid_before start grid_size Hstep) as [Hlt (k0 & Hk0)].
      apply range_values_positive; [exact Hstep |].
      exists (Z.to_nat (k - k0)). split; [| lia].
      rewrite Hk0 in *. rewrite Z2Nat.id by nia. ring. }
    assert (Hmult : forall (start stop m : Z),
      In m (range_values (first_grid start grid_size) stop grid_size) ->
      exists k : Z, m = (k * grid_size)%Z).
    { intros start stop m Hin.
      apply range_values_positive in Hin; [| exact Hstep].
      destruct Hin as (j & -> & _).
      destruct (first_grid_before start grid_size Hstep) as [_ (k0 & ->)].
      exists (k0 + Z.of_nat j)%Z. ring. }
    split; [| split].
    + intros c Hin. apply in_app_or in Hin. destruct Hin as [Hin | Hin].
      * apply vertical_lines_in in Hin. destruct Hin as (xw & Hxw & Hworld & ->).
        destruct (Hmult _ _ _ Hxw) as (k & ->).
        exists k. left. split; [exact Hworld | reflexivity].
      * apply horizontal_lines_in in Hin. destruct Hin as (yw & Hyw & Hworld & ->).
        destruct (Hmult _ _ _ Hyw) as (k & ->).
        exists k. right. split; [exact Hworld | reflexivity].
    + intros k Hrange Hworld. apply in_or_app. left.
      apply vertical_lines_in. exists (k * grid_size)%Z.
      split; [apply Hcover; exact Hrange |]. split; [exact Hworld | reflexivity].
    + intros k Hrange Hworld. apply in_or_app. right.
      apply horizontal_lines_in. exists (k * grid_size)%Z.
      split; [apply Hcover; exact Hrange |]. split; [exact Hworld | reflexivity].
Qed.

Lemma py_int_of_Z (z : Z) : py_int (IZR z) = z.
Proof.
  destruct (py_int_near (IZR z)) as [Hlo Hhi].
  assert (H1 : (z - 1 < py_int (IZR z))%Z)
    by (apply lt_IZR; rewrite minus_IZR; exact Hlo).
  assert (H2 : (py_int (IZR z) < z + 1)%Z)
    by (apply lt_IZR; rewrite plus_IZR; exact Hhi).
  lia.
Qed.

Lemma draw_grid_lines_witness :
  draw_grid 0 0 0 DARK_GRAY [] = Raised ZeroDivisionError [] /\
  exists added : Surface,
    draw_grid 0 0 50 DARK_GRAY [] = Ok tt ([] ++ added) /\
    In (vertical_line DARK_GRAY 0 (2 * 50)) added /\
    In (horizontal_line DARK_GRAY 0 (-3 * 50)) added.
Proof.
  destruct (draw_grid_lines 0 0 0 DARK_GRAY []) as [Hzero _].
  destruct (draw_grid_lines 0 0 50 DARK_GRAY []) as [_ Hpos].
  split; [apply Hzero; reflexivity |].
  destruct Hpos as (added & Hcall & _ & Hv & Hh); [lia |].
  exists added. split; [exact Hcall |].
  assert (Hx0 : py_int (0 - SCREEN_WIDTH / 2) = (-400)%Z).
  { replace (0 - SCREEN_WIDTH / 2) with (IZR (-400)) by (unfold SCREEN_WIDTH; lra).
    apply py_int_of_Z. }
  assert (Hx1 : py_int (0 + SCREEN_WIDTH / 2) = 400%Z).
  { replace (0 + SCREEN_WIDTH / 2) with (IZR 400) by (unfold SCREEN_WIDTH; lra).
    apply py_int_of_Z. }
  assert (Hy0 : py_int (0 - SCREEN_HEIGHT / 2) = (-300)%Z).
  { replace (0 - SCREEN_HEIGHT / 2) with (IZR (-300)) by (unfold SCREEN_HEIGHT; lra).
    apply py_int_of_Z. }
  assert (Hy1 : py_int (0 + SCREEN_HEIGHT / 2) = 300%Z).
  { replace (0 + SCREEN_HEIGHT / 2) with (IZR 300) by (unfold SCREEN_HEIGHT; lra).
    apply py_int_of_Z. }
  split.
  - apply Hv.
    + rewrite Hx0, Hx1. lia.
    + unfold WORLD_WIDTH. rewrite mult_IZR. lra.
  - apply Hh.
    + rewrite Hy0, Hy1. lia.
    + unfold WORLD_HEIGHT. rewrite mult_IZR. lra.
Defined.

(** X14. With a positive grid size, [draw_grid] adds its vertical lines
    and then its horizontal ones, and every vertical line is at a screen
    abscissa below [SCREEN_WIDTH/2 + grid_size + 2] and above
    [-(SCREEN_WIDTH/2 + 2 * grid_size + 2)]: the loop runs over the world
    abscissas around [camera_x], which is the left edge of the screen, so
    no vertical line is drawn further right.  The horizontal lines are
    bounded by [SCREEN_HEIGHT/2] in the same way. *)
Theorem grid_lines_screen_range (camera_x camera_y : R) (grid_size : Z)
    (color : Color) (surface : Surface) (Hstep : (0 < grid_size)%Z) :
  exists vertical horizontal : Surface,
    draw_grid camera_x camera_y grid_size color surface
    = Ok tt (surface ++ vertical ++ horizontal) /\
    (forall c : draw_call, In c vertical ->
       exists xw : Z,
         c = vertical_line color camera_x xw /\
         - (SCREEN_WIDTH / 2 + 2 * IZR grid_size + 2)
           < IZR (py_int (IZR xw - camera_x))
           < SCREEN_WIDTH / 2 + IZR grid_size + 2) /\
    (forall c : draw_call, In c horizontal ->
       exists yw : Z,
         c = horizontal_line color camera_y yw /\
         - (SCREEN_HEIGHT / 2 + 2 * IZR grid_size + 2)
           < IZR (py_int (IZR yw - camera_y))
           < SCREEN_HEIGHT / 2 + IZR grid_size + 2).
Proof.
  assert (Hnz : grid_size <> 0%Z) by lia.
  assert (Hg : 0 < IZR grid_size) by (apply IZR_lt; exact Hstep).
  assert (Hbound : forall (cam half : R) (m : Z),
    In m (range_values (first_grid (py_int (cam - half)) grid_size)
            (py_int (cam + half) + grid_size) grid_size) ->
    - (half + 2 * IZR grid_size + 2) < IZR (py_int (IZR m - cam))
      < half + IZR grid_size + 2).
  { intros cam half m Hin.
    apply range_values_positive in Hin; [| exact Hstep].
    destruct Hin as (j & Hm & Hstop).
    assert (Hfirst : IZR (py_int (cam - half)) - 2 * IZR grid_size
                     < IZR (first_grid (py_int (cam - half)) grid_size)).
    { unfold first_grid. rewrite mult_IZR, minus_IZR.
      destruct (py_int_near (IZR (py_int (cam - half)) / IZR grid_size))
        as [Hlow _].
      assert (Hq : IZR (py_int (cam - half)) / IZR grid_size * IZR grid_size
                   = IZR (py_int (cam - half))) by (field; lra).
      nra. }
    assert (Hlow : IZR (first_grid (py_int (cam - half)) grid_size) <= IZR m).
    { apply IZR_le. rewrite Hm. nia. }
    assert (Hup : IZR m < IZR (py_int (cam + half)) + IZR grid_size).
    { rewrite <- plus_IZR. apply IZR_lt. exact Hstop. }
    destruct (py_int_near (cam - half)) as [Ha _].
    destruct (py_int_near (cam + half)) as [_ Hb].
    destruct (py_int_near (IZR m - cam)) as [Hc Hd].
    lra. }
  eexists. eexists. split; [apply draw_grid_returns; exact Hnz |].
  split.
  - intros c Hin. apply vertical_lines_in in Hin.
    destruct Hin as (xw & Hxw & _ & ->).
    exists xw. split; [reflexivity |]. apply Hbound. exact Hxw.
  - intros c Hin. apply horizontal_lines_in in Hin.
    destruct Hin as (yw & Hyw & _ & ->).
    exists yw. split; [reflexivity |]. apply Hbound. exact Hyw.
Qed.

Lemma grid_lines_screen_range_witness :
  exists vertical horizontal : Surface,
    draw_grid 0 0 50 DARK_GRAY [] = Ok tt ([] ++ vertical ++ horizontal) /\
    (forall c : draw_call, In c vertical ->
       exists xw : Z,
         c = vertical_line DARK_GRAY 0 xw /\
         - (SCREEN_WIDTH / 2 + 2 * IZR 50 + 2)
           < IZR (py_int (IZR xw - 0))
           < SCREEN_WIDTH / 2 + IZR 50 + 2).
Proof.
  destruct (grid_lines_screen_range 0 0 50 DARK_GRAY [])
    as (vertical & horizontal & Hcall & Hv & _); [lia |].
  exists vertical, horizontal. split; assumption.
Defined.

(** ** The drawing of a turn *)

Lemma for_each_draw (foods : list Food) (camera_x camera_y : R) :
  forall surface : Surface,
    for_each foods (fun food : Food => GameObject_draw food camera_x camera_y)
      surface
    = Ok tt (surface ++ food_circles foods camera_x camera_y).
Proof.
  induction foods as [| f rest IH]; intros surface;
    cbn [for_each food_circles flat_map].
  - rewrite app_nil_r. reflexivity.
  - unfold bind, GameObject_draw. fold (on_screen f camera_x camera_y).
    fold (circle_of f camera_x camera_y).
    destruct (on_screen f camera_x camera_y).
    + unfold emit, modify. rewrite IH. unfold food_circles.
      rewrite <- app_assoc. reflexivity.
    + unfold ret. rewrite IH. reflexivity.
Qed.

Lemma Player_draw_returns (text_rect : Font -> string -> R * R -> Rect)
    (self : Player) (camera_x camera_y : R) (surface : Surface) :
  exists (calls : Surface) (name_rect : Rect),
    Player_draw text_rect self camera_x camera_y surface
    = Ok tt (surface ++ calls) /\
    In (blit_text font (name self) WHITE name_rect) calls.
Proof.
  unfold Player_draw.
  set (name_rect := text_rect font (name self) _).
  assert (Hobj : exists circle : Surface,
            GameObject_draw self camera_x camera_y surface
            = Ok tt (surface ++ circle)).
  { unfold GameObject_draw.
    match goal with |- context [if ?c then _ else _] => destruct c end.
    - eexists. reflexivity.
    - exists []. rewrite app_nil_r. reflexivity. }
  destruct Hobj as (circle & Hobj).
  unfold bind at 1. rewrite Hobj. unfold bind, emit, modify, ret.
  destruct (py_bool_str (gemini_description self)
            && py_gt (description_timer self) 0)%bool;
    eexists; exists name_rect;
    (split; [repeat rewrite <- app_assoc; reflexivity |]);
    apply in_or_app; right; left; reflexivity.
Qed.

Lemma draw_frame_returns (text_rect : Font -> string -> R * R -> Rect)
    (g : Game) (surface : Surface) :
  exists (grid player_calls : Surface) (name_rect : Rect),
    draw_frame text_rect g surface
    = Ok tt
        (surface
         ++ [fill_screen BLACK;
             draw_rect (20, 20, 20)%Z
               (- WORLD_WIDTH / 2 - camera_x g) (- WORLD_HEIGHT / 2 - camera_y g)
               WORLD_WIDTH WORLD_HEIGHT]
         ++ grid
         ++ food_circles (food_list g) (camera_x g) (camera_y g)
         ++ player_calls
         ++ [blit_at font ("Mass: " ++ py_str_int (py_int (mass (player g))))
               WHITE 10 10;
             blit_at small_font
               "Move mouse to move. Press G for Gemini description."
               GRAY 10 (SCREEN_HEIGHT - 30);
             display_flip]) /\
    (forall c : draw_call, In c grid ->
       exists (col : Color) (a b c' d : R), c = draw_line col a b c' d) /\
    In (blit_text font (name (player g)) WHITE name_rect) player_calls.
Proof.
  unfold draw_frame.
  unfold bind at 1, emit at 1, modify at 1.
  unfold bind at 1, emit at 1, modify at 1.
  unfold bind at 1.
  rewrite draw_grid_returns by lia.
  unfold bind at 1. rewrite for_each_draw.
  unfold bind at 1.
  match goal with
  | |- context [Player_draw text_rect (player g) (camera_x g) (camera_y g) ?s] =>
      destruct (Player_draw_returns text_rect (player g) (camera_x g)
                  (camera_y g) s) as (calls & name_rect & -> & Hname)
  end.
  unfold bind, emit, modify.
  exists (vertical_lines DARK_GRAY (camera_x g)
            (range_values
               (first_grid (py_int (camera_x g - SCREEN_WIDTH / 2)) 50)
               (py_int (camera_x g + SCREEN_WIDTH / 2) + 50) 50)
          ++ horizontal_lines DARK_GRAY (camera_y g)
               (range_values
                  (first_grid (py_int (camera_y g - SCREEN_HEIGHT / 2)) 50)
                  (py_int (camera_y g + SCREEN_HEIGHT / 2) + 50) 50)).
  exists calls, name_rect.
  split.
  - repeat rewrite <- app_assoc. cbn [app]. reflexivity.
  - split; [| exact Hname].
    intros c Hin. apply in_app_or in Hin. destruct Hin as [Hin | Hin].
    + apply vertical_lines_in in Hin. destruct Hin as (xw & _ & _ & ->).
      unfold vertical_line. do 5 eexists. reflexivity.
    + apply horizontal_lines_in in Hin. destruct Hin as (yw & _ & _ & ->).
      unfold horizontal_line. do 5 eexists. reflexivity.
Qed.

(** X15. The drawing of a turn never raises and draws in layers: the
    background and the world rectangle, then the lines of the grid, then
    one circle for each food that passes the screen test, in the order of
    the food list, then the player with its name, and last the mass, the
    instructions and the flip of the display.  A food of non-negative
    radius with a point of the screen within its radius always has its
    circle, drawn under the player. *)
Theorem draw_frame_layers (text_rect : Font -> string -> R * R -> Rect)
    (g : Game) (surface : Surface) :
  exists (grid player_calls : Surface) (name_rect : Rect),
    draw_frame text_rect g surface
    = Ok tt
        (surface
         ++ [fill_screen BLACK;
             draw_rect (20, 20, 20)%Z
               (- WORLD_WIDTH / 2 - camera_x g) (- WORLD_HEIGHT / 2 - camera_y g)
               WORLD_WIDTH WORLD_HEIGHT]
         ++ grid
         ++ food_circles (food_list g) (camera_x g) (camera_y g)
         ++ player_calls
         ++ [blit_at font ("Mass: " ++ py_str_int (py_int (mass (player g))))
               WHITE 10 10;
             blit_at small_font
               "Move mouse to move. Press G for Gemini description."
               GRAY 10 (SCREEN_HEIGHT - 30);
             display_flip]) /\
    (forall c : draw_call, In c grid ->
       exists (col : Color) (a b c' d : R), c = draw_line col a b c' d) /\
    In (blit_text font (name (player g)) WHITE name_rect) player_calls /\
    (forall c : draw_call,
       In c (food_circles (food_list g) (camera_x g) (camera_y g)) ->
       exists f : Food,
         In f (food_list g) /\ c = circle_of f (camera_x g) (camera_y g)) /\
    (forall (f : Food) (px py : R),
       In f (food_list g) -> 0 <= radius f ->
       0 <= px <= SCREEN_WIDTH -> 0 <= py <= SCREEN_HEIGHT ->
       (px - (x f - camera_x g)) ^ 2 + (py - (y f - camera_y g)) ^ 2
         <= radius f ^ 2 ->
       In (circle_of f (camera_x g) (camera_y g))
         (food_circles (food_list g) (camera_x g) (camera_y g))).
Proof.
  destruct (draw_frame_returns text_rect g surface)
    as (grid & player_calls & name_rect & Hcall & Hgrid & Hname).
  exists grid, player_calls, name_rect.
  split; [exact Hcall |]. split; [exact Hgrid |]. split; [exact Hname |].
  split.
  - intros c Hin. unfold food_circles in Hin. apply in_flat_map in Hin.
    destruct Hin as (f & Hf & Hc). exists f. split; [exact Hf |].
    destruct (on_screen f (camera_x g) (camera_y g)); [| contradiction].
    destruct Hc as [<- | []]. reflexivity.
  - intros f px py Hf Hr Hpx Hpy Hin.
    unfold food_circles. apply in_flat_map. exists f. split; [exact Hf |].
    pose proof (pow2_ge_0 (px - (x f - camera_x g))) as Hsx.
    pose proof (pow2_ge_0 (py - (y f - camera_y g))) as Hsy.
    destruct (within_radius (px - (x f - camera_x g)) (radius f) Hr)
      as [Hx1 Hx2]; [lra |].
    destruct (within_radius (py - (y f - camera_y g)) (radius f) Hr)
      as [Hy1 Hy2]; [lra |].
    unfold on_screen.
    rewrite !(proj2 (py_le_true _ _)) by lra.
    left. reflexivity.
Qed.

Lemma draw_frame_layers_witness :
  In (circle_of (food_at 5 0) (camera_x game0) (camera_y game0))
    (food_circles (food_list game0) (camera_x game0) (camera_y game0)).
Proof.
  destruct (draw_frame_layers sample_text_rect game0 [])
    as (grid & player_calls & name_rect & _ & _ & _ & _ & Hseen).
  apply (Hseen (food_at 5 0) 405 300).
  - left. reflexivity.
  - settings. lra.
  - unfold SCREEN_WIDTH. lra.
  - unfold SCREEN_HEIGHT. lra.
  - unfold game0. cbn [camera_x camera_y].
    unfold SCREEN_WIDTH, SCREEN_HEIGHT. settings. lra.
Defined.

(** X16. In a state that keeps the invariant of the loop, the mass is a
    whole number [400 + 25 * n], and the drawing of the turn writes
    exactly this number after [Mass: ]: [int] loses nothing. *)
Theorem score_shows_mass (text_rect : Font -> string -> R * R -> Rect)
    (g : Game) (surface : Surface) (Hinv : game_invariant g) :
  exists (surface' : Surface) (n : nat),
    draw_frame text_rect g surface = Ok tt surface' /\
    mass (player g) = IZR (400 + 25 * Z.of_nat n) /\
    In (blit_at font ("Mass: " ++ py_str_int (400 + 25 * Z.of_nat n))
          WHITE 10 10) surface'.
Proof.
  destruct Hinv as ((n & Hn) & _).
  assert (Hmass : mass (player g) = IZR (400 + 25 * Z.of_nat n)).
  { rewrite Hn. rewrite plus_IZR, mult_IZR, <- INR_IZR_INZ.
    unfold INITIAL_PLAYER_RADIUS, FOOD_RADIUS. lra. }
  destruct (draw_frame_returns text_rect g surface)
    as (grid & player_calls & name_rect & Hcall & _ & _).
  eexists. exists n. split; [exact Hcall |]. split; [exact Hmass |].
  rewrite Hmass, py_int_of_Z.
  apply in_or_app. right. apply in_or_app. right.
  apply in_or_app. right. apply in_or_app. right.
  apply in_or_app. right. left. reflexivity.
Qed.

Lemma score_shows_mass_witness :
  exists (surface' : Surface) (n : nat),
    draw_frame sample_text_rect
      (mkGame true (Player_init "MyCell" (0, 150, 255)%Z)
         (fresh_foods FOOD_COUNT random_half)
         (0 - SCREEN_WIDTH / 2) (0 - SCREEN_HEIGHT / 2)
         false EmptyString (skip_foods FOOD_COUNT random_half)) []
    = Ok tt surface' /\
    mass (Player_init "MyCell" (0, 150, 255)%Z) = IZR (400 + 25 * Z.of_nat n) /\
    In (blit_at font ("Mass: " ++ py_str_int (400 + 25 * Z.of_nat n))
          WHITE 10 10) surface'.
Proof.
  exact (score_shows_mass sample_text_rect _ []
           (initial_invariant (0, 150, 255)%Z random_half)).
Defined.

(** ** The integer builtins on given numbers *)

Example py_range_examples :
  py_range 0 10 3 = inr [0; 3; 6; 9]%Z /\
  py_range (-450) 451 50
  = inr [-450; -400; -350; -300; -250; -200; -150; -100; -50; 0; 50; 100;
         150; 200; 250; 300; 350; 400; 450]%Z /\
  py_range 5 0 (-2) = inr [5; 3; 1]%Z /\
  py_range 3 3 1 = inr [] /\
  py_range 0 5 0 = inl ValueError.
Proof. repeat split; reflexivity. Qed.

Example py_str_int_examples :
  py_str_int 425 = "425"%string /\
  py_str_int 0 = "0"%string /\
  py_str_int (-7) = "-7"%string.
Proof. repeat split; reflexivity. Qed.
